(** * gmail_archiver: credential lifecycle, paginated listing, per-item archiving

    A shallow embedding of [gmail_archiver.py].  The script is straight-line
    orchestration over external collaborators (the file system, the OAuth
    library, the Gmail HTTP client), so the embedding is an effectful one:

    - every external collaborator is a handler of an [Environment], threading
      an abstract [World];
    - the script's functions live in a small monad [M] that passes the world,
      propagates Python exceptions, and writes the ordered stream of effects
      (external calls with the exception they raised, if any, and log records);
    - the only unbounded loop, [while request is not None], runs on fuel, and
      running out of it is a third outcome next to returning and raising.

    Message dictionaries and the request body are [gmap]s keyed by strings,
    Python integers are [Z]. *)

From stdpp Require Import base option list gmap strings.
From Stdlib Require Import ZArith Lia.

Local Open Scope string_scope.
Local Open Scope list_scope.

(** ** Configuration constants (module level of the script) *)

Definition SCOPES : list string := ["https://www.googleapis.com/auth/gmail.modify"].
Definition TOKEN_FILE : string := "token.json".
Definition CLIENT_SECRETS_FILE : string := "credentials.json".

(** ** Python values the script handles *)

(** The exceptions of the model, all of them subclasses of [Exception]: the
    classes the script's handlers tell apart, the [KeyError] its own code can
    raise, and [OtherException] for every other subclass of [Exception].
    Exceptions outside [Exception] ([KeyboardInterrupt], [SystemExit]) are
    not modelled: no handler of the script catches them, and they would end
    the run wherever they occur. *)
Inductive Exn : Type :=
  | HttpError (status : Z) (content : string)
  | FileNotFoundError (filename : string)
  | KeyError (key : string)
  | OtherException (message : string).

(** What an external call hands back: a value or a raised exception. *)
Inductive Result (A : Type) : Type :=
  | Ok (a : A)
  | Err (e : Exn).
Arguments Ok {A} a.
Arguments Err {A} e.

(** [google.oauth2.credentials.Credentials], reduced to the attributes the
    script reads.  [valid] and [expired] are read as they are (the script never
    derives one from the other). *)
Record Credentials : Type := mkCredentials {
  token : option string;
  refresh_token : option string;
  expired : bool;
  valid : bool
}.

(** Python truthiness of [creds.refresh_token]: [None] and [''] are falsy. *)
Definition truthy (s : option string) : bool :=
  match s with
  | Some EmptyString => false
  | Some _ => true
  | None => false
  end.

(** One entry of a page: a JSON object such as [{'id': .., 'threadId': ..}]. *)
Abbreviation Message := (gmap string string).

(** The decoded JSON body of a response.  Only the key ['messages'] is read by
    the script; ['nextPageToken'] is what the client library's [list_next]
    looks at.  A reply to [modify] carries neither. *)
Record Response : Type := mkResponse {
  messages : option (list Message);
  nextPageToken : option string
}.

(** The [body] argument of [modify], e.g. [{'removeLabelIds': ['INBOX']}]. *)
Abbreviation Body := (gmap string (list string)).

Inductive Level : Type := INFO | WARNING | ERROR.

(** One constructor per [logger] statement of the script, carrying the values
    its format string interpolates. *)
Inductive LogMsg : Type :=
  | LoadedCredentials
  | CouldNotLoadToken (e : Exn)
  | ExistingCredentialsValid
  | AttemptingRefresh
  | TokenRefreshed
  | ErrorRefreshingToken (e : Exn)
  | NotValidNotRefreshable
  | AttemptingNewFlow
  | ClientSecretsNotFound
  | FollowPrerequisites
  | FlowCompleted
  | FlowReturnedNoCredentials
  | ClientSecretsNotFoundDuringFlow
  | ErrorDuringFlow (e : Exn)
  | CredentialsSaved (path : string)
  | ErrorSavingToken (path : string) (e : Exn)
  | FailedToObtainValidCredentials
  | ServiceBuilt
  | ApiErrorBuildingService (e : Exn)
  | UnexpectedErrorBuildingService (e : Exn)
  | FetchingEmails
  | NoMessagesFound
  | FetchedPage (count : nat)
  | TotalFetched (count : nat)
  | ApiErrorFetching (e : Exn)
  | UnexpectedErrorFetching (e : Exn)
  | NoEmailsToArchive
  | StartingToArchive (count : nat)
  | ArchivedEmail (position total : nat) (message_id : string)
  | ApiErrorArchiving (message_id : string) (e : Exn)
  | UnexpectedErrorArchiving (message_id : string) (e : Exn)
  | SuccessfullyArchived (archived : Z) (total : nat)
  | ScriptStarted
  | CouldNotAuthenticate
  | NoEmailsFoundOrError
  | ScriptFinished.

(** How a run of the script's code ends: it returns, raises, or the model's
    loop bound is hit. *)
Inductive Outcome (A : Type) : Type :=
  | Val (a : A)
  | Raise (e : Exn)
  | OutOfFuel.
Arguments Val {A} a.
Arguments Raise {A} e.
Arguments OutOfFuel {A}.

Section Script.

(** The state of everything outside the script, and the opaque handles the
    libraries return: an [HttpRequest], the built service [Resource], an
    [InstalledAppFlow]. *)
Context {World Request Service Flow : Type}.

(** ** External calls *)

Inductive Call : Type :=
  | COsPathExists (path : string)
  | CFromAuthorizedUserFile (filename : string) (scopes : list string)
  | CRefresh (creds : Credentials)
  | CFromClientSecretsFile (filename : string) (scopes : list string)
  | CRunLocalServer (flow : Flow) (port : Z)
  | COpenWrite (path : string) (data : string)
  | CBuild (serviceName version : string) (credentials : Credentials)
  | CMessagesList (service : Service) (userId : string) (labelIds : list string)
  | CMessagesListNext (service : Service) (previous_request : Request)
      (previous_response : Response)
  | CMessagesModify (service : Service) (userId id : string) (body : Body)
  | CExecute (request : Request).

Inductive Effect : Type :=
  | ECall (c : Call) (raised : option Exn)
  | ELog (level : Level) (msg : LogMsg).

(** The collaborators.  Each handler may change the world; those that can
    raise return a [Result]. *)
Record Environment : Type := mkEnvironment {
  os_path_exists : string → World → bool * World;
  from_authorized_user_file : string → list string → World → Result Credentials * World;
  (* [creds.refresh(Request())] updates the credential object in place; the
     handler returns the object's new state. *)
  refresh : Credentials → World → Result Credentials * World;
  from_client_secrets_file : string → list string → World → Result Flow * World;
  (* [None] stands for a falsy return value. *)
  run_local_server : Flow → Z → World → Result (option Credentials) * World;
  to_json : Credentials → string;
  (* [with open(path, 'w') as f: f.write(data)] *)
  open_write : string → string → World → Result unit * World;
  build : string → string → Credentials → World → Result Service * World;
  messages_list : Service → string → list string → World → Result Request * World;
  messages_list_next : Service → Request → Response → World → Result (option Request) * World;
  messages_modify : Service → string → string → Body → World → Result Request * World;
  execute : Request → World → Result Response * World
}.

(** ** The monad of the script *)

Definition M (A : Type) : Type := World → Outcome A * World * list Effect.

Definition ret {A} (a : A) : M A := λ w, (Val a, w, []).

(** The effects [t] happened before the run [r]. *)
Definition prepend {A} (t : list Effect) (r : Outcome A * World * list Effect)
    : Outcome A * World * list Effect :=
  let '(o, w, t') := r in (o, w, t ++ t').

Definition bind {A B} (m : M A) (f : A → M B) : M B := λ w,
  match m w with
  | (Val a, w1, t1) => prepend t1 (f a w1)
  | (Raise e, w1, t1) => (Raise e, w1, t1)
  | (OutOfFuel, w1, t1) => (OutOfFuel, w1, t1)
  end.

#[global] Instance M_ret : MRet M := @ret.
#[global] Instance M_bind : MBind M := λ A B f m, bind m f.

Definition raise {A} (e : Exn) : M A := λ w, (Raise e, w, []).

Definition out_of_fuel {A} : M A := λ w, (OutOfFuel, w, []).

(** [try: body except Exception as e: handler e].  Every [Exn] is an
    [Exception], so the handler sees all of them.  Running out of fuel is not
    an exception and is not caught. *)
Definition try_except {A} (body : M A) (handler : Exn → M A) : M A := λ w,
  match body w with
  | (Raise e, w1, t1) => prepend t1 (handler e w1)
  | r => r
  end.

Definition log (level : Level) (msg : LogMsg) : M unit := λ w, (Val tt, w, [ELog level msg]).

(** An external call that may raise; the effect stream records the call and
    the exception, if any. *)
Definition call {A} (c : Call) (handler : World → Result A * World) : M A := λ w,
  match handler w with
  | (Ok a, w1) => (Val a, w1, [ECall c None])
  | (Err e, w1) => (Raise e, w1, [ECall c (Some e)])
  end.

(** An external call that cannot raise. *)
Definition call_total {A} (c : Call) (handler : World → A * World) : M A := λ w,
  let '(a, w1) := handler w in (Val a, w1, [ECall c None]).

Definition outcome {A} (r : Outcome A * World * list Effect) : Outcome A := r.1.1.
Definition final_world {A} (r : Outcome A * World * list Effect) : World := r.1.2.
Definition effects {A} (r : Outcome A * World * list Effect) : list Effect := r.2.

Variable env : Environment.

(** ** [fetch_inbox_emails] *)

(** [msg['id']] *)
Definition getitem (msg : Message) (key : string) : M string :=
  match msg !! key with
  | Some v => mret v
  | None => raise (KeyError key)
  end.

(** The [while request is not None] loop, lines 147-159.  [fuel] bounds the
    number of times the loop condition is evaluated. *)
Fixpoint fetch_loop (fuel : nat) (service : Service) (request : option Request)
    (message_ids : list string) : M (list string) :=
  match fuel with
  | O => out_of_fuel
  | S fuel =>
    match request with
    | None => mret message_ids
    | Some request =>
      response ← call (CExecute request) (execute env request);
      let messages := default [] (messages response) in
      match messages with
      | [] =>
        log INFO NoMessagesFound;;
        mret message_ids
      | _ =>
        current_page_ids ← mapM (λ msg, getitem msg "id") messages;
        let message_ids := message_ids ++ current_page_ids in
        log INFO (FetchedPage (length current_page_ids));;
        request ← call (CMessagesListNext service request response)
                       (messages_list_next env service request response);
        fetch_loop fuel service request message_ids
      end
    end
  end.

Definition fetch_inbox_emails (fuel : nat) (service : Service) : M (list string) :=
  log INFO FetchingEmails;;
  let message_ids := [] in
  try_except
    (request ← call (CMessagesList service "me" ["INBOX"])
                    (messages_list env service "me" ["INBOX"]);
     message_ids ← fetch_loop fuel service (Some request) message_ids;
     log INFO (TotalFetched (length message_ids));;
     mret message_ids)
    (λ e,
      match e with
      | HttpError _ _ => log ERROR (ApiErrorFetching e);; mret []
      | _ => log ERROR (UnexpectedErrorFetching e);; mret []
      end).

(** ** [archive_emails] *)

(** The [for i, message_id in enumerate(message_ids)] loop, lines 188-207.
    [total] is [len(message_ids)] of the whole input, [i] the running index. *)
Fixpoint archive_loop (service : Service) (total : nat) (i : nat)
    (message_ids : list string) (archived_count : Z) : M Z :=
  match message_ids with
  | [] => mret archived_count
  | message_id :: rest =>
    archived_count ←
      try_except
        (let body : Body := {[ "removeLabelIds" := ["INBOX"] ]} in
         request ← call (CMessagesModify service "me" message_id body)
                        (messages_modify env service "me" message_id body);
         call (CExecute request) (execute env request);;
         let archived_count := (archived_count + 1)%Z in
         log INFO (ArchivedEmail (i + 1) total message_id);;
         mret archived_count)
        (λ e,
          match e with
          | HttpError _ _ => log ERROR (ApiErrorArchiving message_id e)
          | _ => log ERROR (UnexpectedErrorArchiving message_id e)
          end;;
          mret archived_count);
    archive_loop service total (S i) rest archived_count
  end.

Definition archive_emails (service : Service) (message_ids : list string) : M Z :=
  match message_ids with
  | [] =>
    log INFO NoEmailsToArchive;;
    mret 0%Z
  | _ =>
    log INFO (StartingToArchive (length message_ids));;
    let archived_count := 0%Z in
    archived_count ← archive_loop service (length message_ids) 0 message_ids archived_count;
    log INFO (SuccessfullyArchived archived_count (length message_ids));;
    mret archived_count
  end.

(** ** [authenticate_gmail] *)

(** Lines 59-65: read the token store; a failure to load is absence. *)
Definition load_token (creds : option Credentials) : M (option Credentials) :=
  token_exists ← call_total (COsPathExists TOKEN_FILE) (os_path_exists env TOKEN_FILE);
  if token_exists : bool then
    try_except
      (creds ← call (CFromAuthorizedUserFile TOKEN_FILE SCOPES)
                    (from_authorized_user_file env TOKEN_FILE SCOPES);
       log INFO LoadedCredentials;;
       mret (Some creds))
      (λ e,
        log WARNING (CouldNotLoadToken e);;
        mret None)
  else mret creds.

(** Lines 67-81: keep a valid credential, refresh an expired one that has a
    refresh token, drop anything else.  Returns [creds] and the flag
    [creds_were_modified_and_need_saving]. *)
Definition validate_or_refresh (creds : option Credentials)
    (creds_were_modified_and_need_saving : bool) : M (option Credentials * bool) :=
  match creds with
  | Some c =>
    if valid c then
      log INFO ExistingCredentialsValid;;
      mret (creds, creds_were_modified_and_need_saving)
    else if expired c && truthy (refresh_token c) then
      log INFO AttemptingRefresh;;
      try_except
        (c ← call (CRefresh c) (refresh env c);
         log INFO TokenRefreshed;;
         mret (Some c, true))
        (λ e,
          log ERROR (ErrorRefreshingToken e);;
          mret (None, creds_were_modified_and_need_saving))
    else
      log INFO NotValidNotRefreshable;;
      mret (None, creds_were_modified_and_need_saving)
  | None => mret (creds, creds_were_modified_and_need_saving)
  end.

(** Lines 85-106: the interactive grant.  [inl v] is the function returning
    [v] from inside the block; [inr] falls through to the statements after
    it with the two variables. *)
Definition new_oauth_flow (creds : option Credentials)
    (creds_were_modified_and_need_saving : bool)
    : M (option Service + option Credentials * bool) :=
  match creds with
  | Some _ => mret (inr (creds, creds_were_modified_and_need_saving))
  | None =>
    log INFO AttemptingNewFlow;;
    secrets_exist ← call_total (COsPathExists CLIENT_SECRETS_FILE)
                               (os_path_exists env CLIENT_SECRETS_FILE);
    if negb secrets_exist then
      log ERROR ClientSecretsNotFound;;
      log ERROR FollowPrerequisites;;
      mret (inl None)
    else
      try_except
        (flow ← call (CFromClientSecretsFile CLIENT_SECRETS_FILE SCOPES)
                     (from_client_secrets_file env CLIENT_SECRETS_FILE SCOPES);
         creds_new ← call (CRunLocalServer flow 0) (run_local_server env flow 0%Z);
         match creds_new with
         | Some _ =>
           log INFO FlowCompleted;;
           mret (inr (creds_new, true))
         | None =>
           log ERROR FlowReturnedNoCredentials;;
           mret (inr (creds, creds_were_modified_and_need_saving))
         end)
        (λ e,
          match e with
          | FileNotFoundError _ => log ERROR ClientSecretsNotFoundDuringFlow;; mret (inl None)
          | _ => log ERROR (ErrorDuringFlow e);; mret (inl None)
          end)
  end.

(** Lines 109-117: persist a new or refreshed credential; a failure to write
    is logged and the run goes on. *)
Definition save_token (creds : option Credentials)
    (creds_were_modified_and_need_saving : bool) : M unit :=
  match creds with
  | Some c =>
    if creds_were_modified_and_need_saving then
      try_except
        (call (COpenWrite TOKEN_FILE (to_json env c)) (open_write env TOKEN_FILE (to_json env c));;
         log INFO (CredentialsSaved TOKEN_FILE))
        (λ e, log ERROR (ErrorSavingToken TOKEN_FILE e))
    else mret tt
  | None => mret tt
  end.

(** Lines 120-133: the final validity check and the construction of the
    service. *)
Definition build_service (creds : option Credentials) : M (option Service) :=
  match creds with
  | Some c =>
    if valid c then
      try_except
        (service ← call (CBuild "gmail" "v1" c) (build env "gmail" "v1" c);
         log INFO ServiceBuilt;;
         mret (Some service))
        (λ e,
          match e with
          | HttpError _ _ => log ERROR (ApiErrorBuildingService e);; mret None
          | _ => log ERROR (UnexpectedErrorBuildingService e);; mret None
          end)
    else
      log ERROR FailedToObtainValidCredentials;;
      mret None
  | None =>
    log ERROR FailedToObtainValidCredentials;;
    mret None
  end.

(** Lines 56-117: everything before the final check.  [inl v] is an early
    [return v]; [inr creds] is the variable [creds] as the final check
    finds it. *)
Definition obtain_credentials : M (option Service + option Credentials) :=
  let creds := None in
  let creds_were_modified_and_need_saving := false in
  creds ← load_token creds;
  '(creds, creds_were_modified_and_need_saving) ←
    validate_or_refresh creds creds_were_modified_and_need_saving;
  r ← new_oauth_flow creds creds_were_modified_and_need_saving;
  match r with
  | inl returned => mret (inl returned)
  | inr (creds, creds_were_modified_and_need_saving) =>
    save_token creds creds_were_modified_and_need_saving;;
    mret (inr creds)
  end.

Definition authenticate_gmail : M (option Service) :=
  r ← obtain_credentials;
  match r with
  | inl returned => mret returned
  | inr creds => build_service creds
  end.

(** ** [main] *)

Definition main (fuel : nat) : M unit :=
  log INFO ScriptStarted;;
  service ← authenticate_gmail;
  match service with
  | None =>
    log ERROR CouldNotAuthenticate;;
    mret tt
  | Some service =>
    inbox_message_ids ← fetch_inbox_emails fuel service;
    match inbox_message_ids with
    | [] =>
      log INFO NoEmailsFoundOrError;;
      mret tt
    | _ =>
      archive_emails service inbox_message_ids;;
      log INFO ScriptFinished;;
      mret tt
    end
  end.

End Script.

Arguments Call : clear implicits.
Arguments Effect : clear implicits.
Arguments Environment : clear implicits.

(** ** A scripted environment

    A stateless stand-in for the collaborators, in the manner of the mocks of
    [test_gmail_archiver.py]: each handler answers from a fixed script.
    [list_next] follows the client library: there is a next request exactly
    when the previous response carries a ['nextPageToken']. *)
Module Mock.

Inductive Request : Type :=
  | PageRequest (index : nat)
  | ModifyRequest (id : string).

Record Script : Type := mkScript {
  token_present : bool;
  stored : Result Credentials;
  refreshed : Result Credentials;
  secrets_present : bool;
  granted : Result (option Credentials);
  built : Result unit;
  pages : list (Result Response);
  failing : list string
}.

Definition page (messages : list Message) (next : option string) : Result Response :=
  Ok (mkResponse (Some messages) next).

Definition msg (id : string) : Message := {[ "id" := id ]}.

Definition env (s : Script) : Environment unit Request unit unit := {|
  os_path_exists path w :=
    (if String.eqb path TOKEN_FILE then token_present s
     else if String.eqb path CLIENT_SECRETS_FILE then secrets_present s
     else false, w);
  from_authorized_user_file _ _ w := (stored s, w);
  refresh _ w := (refreshed s, w);
  from_client_secrets_file _ _ w := (if secrets_present s then Ok tt else Err (FileNotFoundError CLIENT_SECRETS_FILE), w);
  run_local_server _ _ w := (granted s, w);
  to_json _ := "{}";
  open_write _ _ w := (Ok tt, w);
  build _ _ _ w := (built s, w);
  messages_list _ _ _ w := (Ok (PageRequest 0), w);
  messages_list_next _ request response w :=
    (match request, nextPageToken response with
     | PageRequest n, Some _ => Ok (Some (PageRequest (S n)))
     | _, _ => Ok None
     end, w);
  messages_modify _ _ id _ w := (Ok (ModifyRequest id), w);
  execute request w :=
    (match request with
     | PageRequest n => default (Err (HttpError 404 "no such page")) (pages s !! n)
     | ModifyRequest id =>
       if bool_decide (id ∈ failing s) then Err (HttpError 500 "API Error")
       else Ok (mkResponse None None)
     end, w)
|}.

Definition expired_creds : Credentials :=
  {| token := Some "old"; refresh_token := Some "r"; expired := true; valid := false |}.
Definition fresh_creds : Credentials :=
  {| token := Some "new"; refresh_token := Some "r"; expired := false; valid := true |}.

(** No token store, no client secrets, an empty mailbox. *)
Definition blank : Script := {|
  token_present := false; stored := Err (OtherException "unreadable");
  refreshed := Err (OtherException "Refresh failed");
  secrets_present := false; granted := Ok None; built := Ok tt;
  pages := []; failing := []
|}.

Definition with_pages (ps : list (Result Response)) : Script := {|
  token_present := token_present blank; stored := stored blank;
  refreshed := refreshed blank; secrets_present := secrets_present blank;
  granted := granted blank; built := built blank;
  pages := ps; failing := failing blank
|}.

(** Two pages of one message each, as in
    [test_fetch_inbox_emails_success_multiple_pages]. *)
Definition two_pages : Script :=
  with_pages [page [msg "msg1"] (Some "pageToken123"); page [msg "msg2"] None].


(** The second page request fails. *)
Definition second_page_fails : Script :=
  with_pages [page [msg "m1"] (Some "t1"); Err (HttpError 500 "API Error")].

(** The mutation of ["msg2"] fails, as in
    [test_archive_emails_api_error_on_one_email]. *)
Definition msg2_fails : Script := {|
  token_present := token_present blank; stored := stored blank;
  refreshed := refreshed blank; secrets_present := secrets_present blank;
  granted := granted blank; built := built blank;
  pages := []; failing := ["msg2"]
|}.

(** A stored credential that is expired and has a refresh token. *)
Definition stored_expired (refresh_result : Result Credentials) (secrets : bool) : Script := {|
  token_present := true; stored := Ok expired_creds;
  refreshed := refresh_result; secrets_present := secrets;
  granted := Ok (Some fresh_creds); built := Ok tt;
  pages := []; failing := []
|}.

Definition refreshed_creds : Credentials :=
  {| token := Some "renewed"; refresh_token := Some "r"; expired := false; valid := true |}.
Definition refresh_succeeds : Script := stored_expired (Ok refreshed_creds) true.
Definition refresh_fails : Script := stored_expired (Err (OtherException "Refresh failed")) true.
Definition refresh_fails_no_secrets : Script :=
  stored_expired (Err (OtherException "Refresh failed")) false.

(** Pages of two and one messages; the identifier ["a"] occurs on both. *)
Definition uneven_pages : Script :=
  with_pages [page [msg "a"; msg "b"] (Some "t1"); page [msg "a"] None].

(** The second page holds an entry without an ['id']. *)
Definition entry_without_id : Script :=
  with_pages [page [msg "m1"] (Some "t1"); page [{[ "threadId" := "t2" ]}] None].

(** A mailbox whose first page has no ['messages'] key. *)
Definition empty_mailbox : Script := with_pages [Ok (mkResponse None None)].

(** The environment of a script on a disk that cannot be written. *)
Definition env_unwritable (s : Script) : Environment unit Request unit unit := {|
  os_path_exists := os_path_exists (env s);
  from_authorized_user_file := from_authorized_user_file (env s);
  refresh := refresh (env s);
  from_client_secrets_file := from_client_secrets_file (env s);
  run_local_server := run_local_server (env s);
  to_json := to_json (env s);
  open_write _ _ w := (Err (OtherException "read-only file system"), w);
  build := build (env s);
  messages_list := messages_list (env s);
  messages_list_next := messages_list_next (env s);
  messages_modify := messages_modify (env s);
  execute := execute (env s)
|}.

(** A stored credential that is still valid. *)
Definition stored_valid : Script := {|
  token_present := true; stored := Ok fresh_creds;
  refreshed := refreshed blank; secrets_present := false;
  granted := granted blank; built := Ok tt;
  pages := []; failing := []
|}.

(** A first run: no token store, the client-secret file in place, the user
    grants access. *)
Definition first_run : Script := {|
  token_present := false; stored := stored blank;
  refreshed := refreshed blank; secrets_present := true;
  granted := Ok (Some fresh_creds); built := Ok tt;
  pages := []; failing := []
|}.

(** A first run in which the grant flow raises. *)
Definition grant_refused : Script := {|
  token_present := false; stored := stored blank;
  refreshed := refreshed blank; secrets_present := true;
  granted := Err (OtherException "Flow error"); built := Ok tt;
  pages := []; failing := []
|}.

(** A stored credential that is expired and has no refresh token. *)
Definition unrefreshable_creds : Credentials :=
  {| token := Some "old"; refresh_token := None; expired := true; valid := false |}.
Definition stored_unrefreshable : Script := {|
  token_present := true; stored := Ok unrefreshable_creds;
  refreshed := refreshed blank; secrets_present := false;
  granted := granted blank; built := Ok tt;
  pages := []; failing := []
|}.

(** A whole run: a valid stored credential and a mailbox of two pages. *)
Definition full_run (failing_ids : list string) : Script := {|
  token_present := true; stored := Ok fresh_creds;
  refreshed := refreshed blank; secrets_present := false;
  granted := granted blank; built := Ok tt;
  pages := [page [msg "msg1"] (Some "pageToken123"); page [msg "msg2"] None];
  failing := failing_ids
|}.

End Mock.


(** ** Observations on effect streams *)

Section Observations.
Context {Request Service Flow : Type}.
Implicit Types (t : list (Effect Request Service Flow)) (ef : Effect Request Service Flow).

(** The external calls of a stream, in order, without the log records. *)
Definition calls t : list (Call Request Service Flow) :=
  omap (λ ef, match ef with ECall c _ => Some c | ELog _ _ => None end) t.

(** The requests whose [execute] was called, in order. *)
Definition executed t : list Request :=
  omap (λ ef, match ef with ECall (CExecute request) _ => Some request | _ => None end) t.

(** The identifiers [modify] was called with, in order. *)
Definition modified t : list string :=
  omap (λ ef, match ef with ECall (CMessagesModify _ _ id _) _ => Some id | _ => None end) t.

Definition is_raised ef : bool :=
  match ef with ECall _ (Some _) => true | _ => false end.

Definition is_list_next ef : bool :=
  match ef with ECall (CMessagesListNext _ _ _) _ => true | _ => false end.

(** [flow.run_local_server] is what opens the consent step. *)
Definition is_flow_launch ef : bool :=
  match ef with ECall (CRunLocalServer _ _) _ => true | _ => false end.

(** How many effects of a stream satisfy [f]. *)
Definition count_effects (f : Effect Request Service Flow → bool) t : nat :=
  length (List.filter f t).

Definition flow_launches t : nat := count_effects is_flow_launch t.

(** A call that constructs the grant flow or runs it. *)
Definition is_grant_call ef : bool :=
  match ef with
  | ECall (CFromClientSecretsFile _ _) _ | ECall (CRunLocalServer _ _) _ => true
  | _ => false
  end.

(** A log record or a call on the mailbox API: what the listing and the
    archiving are made of. *)
Definition is_mailbox_effect ef : bool :=
  match ef with
  | ELog _ _ => true
  | ECall (CMessagesList _ _ _) _ | ECall (CMessagesListNext _ _ _) _
  | ECall (CMessagesModify _ _ _ _) _ | ECall (CExecute _) _ => true
  | ECall _ _ => false
  end.

(** Calls that go over the network: the token endpoint ([refresh], the grant
    flow), the discovery document ([build]) and the mailbox API ([execute]).
    The others touch the local file system or only construct objects. *)
Definition is_network (c : Call Request Service Flow) : bool :=
  match c with
  | CRefresh _ | CRunLocalServer _ _ | CBuild _ _ _ | CExecute _ => true
  | _ => false
  end.

Definition is_network_effect ef : bool :=
  match ef with ECall c _ => is_network c | ELog _ _ => false end.

(** The network calls of a stream, each with the exception it raised. *)
Definition network_effects t : list (Effect Request Service Flow) :=
  List.filter is_network_effect t.

End Observations.

(** ** What the mailbox serves *)

Section Pages.
Context {World Request Service Flow : Type}.
Variable env : Environment World Request Service Flow.
Variable service : Service.

(** The identifiers of a page, when every entry has one. *)
Definition page_ids (response : Response) : option (list string) :=
  mapM (λ msg : Message, msg !! "id") (default [] (messages response)).

(** A page as the listing sees it: the request executed, the response, the
    identifiers in it, and what [list_next] returned for it. *)
Record Page : Type := mkPage {
  page_request : Request;
  page_response : Response;
  page_message_ids : list string;
  page_next : option Request
}.

(** [serves w request ps w' pending]: from world [w], executing [request] and
    following [list_next] yields the non-empty pages [ps] without an
    exception, and leaves world [w'].  [pending] is the request still to be
    executed: [None] when the last [list_next] returned no continuation. *)
Inductive serves : World → Request → list Page → World → option Request → Prop :=
  | serves_nil w request :
      serves w request [] w (Some request)
  | serves_last w request response ids w1 w2 :
      execute env request w = (Ok response, w1) →
      page_ids response = Some ids → ids ≠ [] →
      messages_list_next env service request response w1 = (Ok None, w2) →
      serves w request [mkPage request response ids None] w2 None
  | serves_cons w request response ids w1 next w2 ps w3 pending :
      execute env request w = (Ok response, w1) →
      page_ids response = Some ids → ids ≠ [] →
      messages_list_next env service request response w1 = (Ok (Some next), w2) →
      serves w2 next ps w3 pending →
      serves w request (mkPage request response ids (Some next) :: ps) w3 pending.

(** The effects of processing one non-empty page. *)
Definition page_effects (p : Page) : list (Effect Request Service Flow) :=
  [ECall (CExecute (page_request p)) None;
   ELog INFO (FetchedPage (length (page_message_ids p)));
   ECall (CMessagesListNext service (page_request p) (page_response p)) None].

Definition all_message_ids (ps : list Page) : list string :=
  concat (page_message_ids <$> ps).

End Pages.


(** ** What the mailbox does to mutations *)

Section Mutations.
Context {World Request Service Flow : Type}.
Variable env : Environment World Request Service Flow.
Variable service : Service.

(** Issuing the archive mutation for one identifier: the request is built by
    [modify] and then executed.  [true] when neither step raises. *)
Definition mutate (message_id : string) (w : World) : bool * World :=
  match messages_modify env service "me" message_id {[ "removeLabelIds" := ["INBOX"] ]} w with
  | (Ok request, w1) =>
    match execute env request w1 with
    | (Ok _, w2) => (true, w2)
    | (Err _, w2) => (false, w2)
    end
  | (Err _, w1) => (false, w1)
  end.

(** The pattern of success and failure the mailbox shows when the mutations
    for [message_ids] are issued one after the other from world [w]. *)
Fixpoint mutation_outcomes (message_ids : list string) (w : World) : list bool :=
  match message_ids with
  | [] => []
  | message_id :: rest =>
    let '(completed, w1) := mutate message_id w in
    completed :: mutation_outcomes rest w1
  end.

Definition successes (outcomes : list bool) : nat :=
  length (List.filter (λ completed : bool, completed) outcomes).

End Mutations.

(** A mutation request that was executed and did not raise. *)
Definition is_completed_mutation {Request Service Flow : Type}
    (ef : Effect Request Service Flow) : bool :=
  match ef with ECall (CExecute _) None => true | _ => false end.

(** ** Further observations on effect streams *)

Section MoreObservations.
Context {Request Service Flow : Type}.
Implicit Types (t : list (Effect Request Service Flow)) (ef : Effect Request Service Flow).

(** What the listing is made of: log records, the initial [list] request
    for the inbox of ['me'], page requests and requests for a continuation. *)
Definition is_listing_effect ef : bool :=
  match ef with
  | ELog _ _ => true
  | ECall (CMessagesList _ userId labelIds) _ =>
    bool_decide (userId = "me" ∧ labelIds = ["INBOX"])
  | ECall (CMessagesListNext _ _ _) _ | ECall (CExecute _) _ => true
  | ECall _ _ => false
  end.

(** The [modify] calls of a stream, in order, with all their arguments. *)
Definition modify_calls t : list (Call Request Service Flow) :=
  List.filter (λ c, match c with CMessagesModify _ _ _ _ => true | _ => false end) (calls t).

(** The identifiers the archiving logged as archived, in order. *)
Definition archived_ids t : list string :=
  omap (λ ef, match ef with
              | ELog INFO (ArchivedEmail _ _ message_id) => Some message_id
              | _ => None
              end) t.

(** The identifiers the archiving logged an error for, in order. *)
Definition failed_ids t : list string :=
  omap (λ ef, match ef with
              | ELog ERROR (ApiErrorArchiving message_id _)
              | ELog ERROR (UnexpectedErrorArchiving message_id _) => Some message_id
              | _ => None
              end) t.

Definition is_refresh_call ef : bool :=
  match ef with ECall (CRefresh _) _ => true | _ => false end.

Definition is_build_call ef : bool :=
  match ef with ECall (CBuild _ _ _) _ => true | _ => false end.

(** A refresh or a grant that completed without raising. *)
Definition is_completed_renewal ef : bool :=
  match ef with
  | ECall (CRefresh _) None | ECall (CRunLocalServer _ _) None => true
  | _ => false
  end.

(** What was written to files: path and data of every [open(..., 'w')], in
    order. *)
Definition file_writes t : list (string * string) :=
  omap (λ ef, match ef with ECall (COpenWrite path data) _ => Some (path, data) | _ => None end) t.

(** The credentials [refresh] was called on, in order. *)
Definition refreshed_credentials t : list Credentials :=
  omap (λ ef, match ef with ECall (CRefresh creds) _ => Some creds | _ => None end) t.

(** The credentials [build] was called with, in order. *)
Definition built_with t : list Credentials :=
  omap (λ ef, match ef with ECall (CBuild _ _ creds) _ => Some creds | _ => None end) t.

End MoreObservations.

(** The identifiers among [message_ids] whose mutation had the outcome
    [completed]. *)
Definition ids_with_outcome (completed : bool) (message_ids : list string)
    (outcomes : list bool) : list string :=
  (List.filter (λ p : string * bool, Bool.eqb p.2 completed) (zip message_ids outcomes)).*1.

(** A log record or a call on the file system, the OAuth library or
    [build]: what the credential operation is made of. *)
Definition is_credential_effect {Request Service Flow : Type}
    (ef : Effect Request Service Flow) : bool :=
  match ef with
  | ELog _ _ => true
  | ECall (CMessagesList _ _ _) _ | ECall (CMessagesListNext _ _ _) _
  | ECall (CMessagesModify _ _ _ _) _ | ECall (CExecute _) _ => false
  | ECall _ _ => true
  end.

(** * Proofs *)

(** ** Running the monad *)

Section Running.
Context {World Request Service Flow : Type}.
Abbreviation M := (@M World Request Service Flow).
Implicit Types (w : World) (t : list (Effect Request Service Flow)).

Lemma prepend_nil {A} (r : Outcome A * World * list (Effect Request Service Flow)) :
  prepend [] r = r.
Proof. by destruct r as [[o w] t]. Qed.

Lemma prepend_prepend {A} t1 t2 (r : Outcome A * World * list (Effect Request Service Flow)) :
  prepend t1 (prepend t2 r) = prepend (t1 ++ t2) r.
Proof. destruct r as [[o w] t]. simpl. by rewrite app_assoc. Qed.

Lemma outcome_prepend {A} t (r : Outcome A * World * list (Effect Request Service Flow)) :
  outcome (prepend t r) = outcome r.
Proof. by destruct r as [[o w] t']. Qed.

Lemma final_world_prepend {A} t (r : Outcome A * World * list (Effect Request Service Flow)) :
  final_world (prepend t r) = final_world r.
Proof. by destruct r as [[o w] t']. Qed.

Lemma effects_prepend {A} t (r : Outcome A * World * list (Effect Request Service Flow)) :
  effects (prepend t r) = t ++ effects r.
Proof. by destruct r as [[o w] t']. Qed.

Lemma run_bind_val {A B} (m : M A) (f : A → M B) w a w1 t1 :
  m w = (Val a, w1, t1) → (m ≫= f) w = prepend t1 (f a w1).
Proof. intros H. unfold mbind, M_bind, bind. by rewrite H. Qed.

Lemma run_bind_raise {A B} (m : M A) (f : A → M B) w e w1 t1 :
  m w = (Raise e, w1, t1) → (m ≫= f) w = (Raise e, w1, t1).
Proof. intros H. unfold mbind, M_bind, bind. by rewrite H. Qed.

Lemma run_bind_out_of_fuel {A B} (m : M A) (f : A → M B) w w1 t1 :
  m w = (OutOfFuel, w1, t1) → (m ≫= f) w = (OutOfFuel, w1, t1).
Proof. intros H. unfold mbind, M_bind, bind. by rewrite H. Qed.

Lemma run_try_val {A} (body : M A) handler w a w1 t1 :
  body w = (Val a, w1, t1) → try_except body handler w = (Val a, w1, t1).
Proof. intros H. unfold try_except. by rewrite H. Qed.

Lemma run_try_raise {A} (body : M A) handler w e w1 t1 :
  body w = (Raise e, w1, t1) → try_except body handler w = prepend t1 (handler e w1).
Proof. intros H. unfold try_except. by rewrite H. Qed.

Lemma run_try_out_of_fuel {A} (body : M A) handler w w1 t1 :
  body w = (OutOfFuel, w1, t1) → try_except body handler w = (OutOfFuel, w1, t1).
Proof. intros H. unfold try_except. by rewrite H. Qed.

Lemma run_call_ok {A} c (handler : World → Result A * World) w a w1 :
  handler w = (Ok a, w1) →
  call (Flow:=Flow) (Service:=Service) (Request:=Request) c handler w
    = (Val a, w1, [ECall c None]).
Proof. intros H. unfold call. by rewrite H. Qed.

Lemma run_call_err {A} c (handler : World → Result A * World) w e w1 :
  handler w = (Err e, w1) →
  call (Flow:=Flow) (Service:=Service) (Request:=Request) c handler w
    = (Raise e, w1, [ECall c (Some e)]).
Proof. intros H. unfold call. by rewrite H. Qed.

Lemma run_log_bind {B} level msg (f : unit → M B) w :
  (log level msg ≫= f) w = prepend [ELog level msg] (f tt w).
Proof. done. Qed.

Lemma run_ret {A} (a : A) w : (mret a : M A) w = (Val a, w, []).
Proof. done. Qed.

Lemma count_effects_app (f : Effect Request Service Flow → bool) t1 t2 :
  count_effects f (t1 ++ t2) = (count_effects f t1 + count_effects f t2)%nat.
Proof. unfold count_effects. by rewrite List.filter_app, length_app. Qed.

Lemma count_effects_cons (f : Effect Request Service Flow → bool) ef t :
  count_effects f (ef :: t) = ((if f ef then 1 else 0) + count_effects f t)%nat.
Proof. unfold count_effects. simpl. by destruct (f ef). Qed.

Lemma executed_app t1 t2 : executed t1 ++ executed t2 = executed (t1 ++ t2).
Proof. unfold executed. by rewrite omap_app. Qed.

Lemma modified_app t1 t2 : modified t1 ++ modified t2 = modified (t1 ++ t2).
Proof. unfold modified. by rewrite omap_app. Qed.

Lemma forallb_mailbox_no_flow (t : list (Effect Request Service Flow)) :
  forallb is_mailbox_effect t = true → flow_launches t = 0%nat.
Proof.
  unfold flow_launches. induction t as [|ef t IH]; [done|].
  simpl. rewrite count_effects_cons. intros [Hef Ht]%andb_prop.
  rewrite (IH Ht). by destruct ef as [[] ?|].
Qed.

End Running.

(** ** Listing *)

Section ListingProofs.
Context {World Request Service Flow : Type}.
Variable env : Environment World Request Service Flow.
Variable service : Service.
Abbreviation M := (@M World Request Service Flow).

Lemma mapM_getitem (msgs : list Message) (ids : list string) (w : World) :
  mapM (λ msg : Message, msg !! "id") msgs = Some ids →
  mapM (M := M) (λ msg, getitem msg "id") msgs w = (Val ids, w, []).
Proof.
  revert ids. induction msgs as [|m msgs IH]; intros ids H; simpl in *.
  - by inversion H.
  - destruct (m !! "id") as [i|] eqn:Hm; simpl in H; [|done].
    destruct (mapM _ msgs) as [k|] eqn:Hk; simpl in H; [|done].
    inversion H; subst.
    erewrite run_bind_val; [|unfold getitem; by rewrite Hm].
    erewrite run_bind_val; [|by apply IH]. done.
Qed.

Lemma fetch_loop_serves w request ps w' pending :
  serves env service w request ps w' pending →
  ∀ fuel acc,
    fetch_loop env (length ps + fuel) service (Some request) acc w =
    prepend (ps ≫= page_effects service)
      (fetch_loop env fuel service pending (acc ++ all_message_ids ps) w').
Proof.
  induction 1 as [w request|w request response ids w1 w2 Hex Hids Hne Hnext
                 |w request response ids w1 next w2 ps w3 pending Hex Hids Hne Hnext _ IH];
    intros fuel acc.
  - unfold all_message_ids. simpl. by rewrite app_nil_r, prepend_nil.
  - simpl. erewrite run_bind_val; [|by apply run_call_ok].
    unfold page_ids in Hids.
    destruct (default [] (messages response)) as [|m ms] eqn:Hms.
    { simpl in Hids. inversion Hids. congruence. }
    erewrite run_bind_val; [|by apply mapM_getitem].
    rewrite run_log_bind.
    erewrite run_bind_val; [|by apply run_call_ok].
    rewrite !prepend_prepend. unfold all_message_ids. simpl. by rewrite app_nil_r.
  - simpl. erewrite run_bind_val; [|by apply run_call_ok].
    unfold page_ids in Hids.
    destruct (default [] (messages response)) as [|m ms] eqn:Hms.
    { simpl in Hids. inversion Hids. congruence. }
    erewrite run_bind_val; [|by apply mapM_getitem].
    rewrite run_log_bind.
    erewrite run_bind_val; [|by apply run_call_ok].
    rewrite IH, !prepend_prepend. unfold all_message_ids. simpl. by rewrite app_assoc.
Qed.


(** The requests executed along a chain are the first request followed by the
    continuations [list_next] returned. *)
Lemma serves_requests w request ps w' pending :
  serves env service w request ps w' pending →
  (page_request <$> ps) ++ option_list pending = request :: omap page_next ps.
Proof.
  induction 1 as [| |w request response ids w1 next w2 ps w3 pending _ _ _ _ _ IH]; simpl; try done.
  f_equal. exact IH.
Qed.

Lemma serves_exhausted_nonempty w request ps w' :
  serves env service w request ps w' None → (1 ≤ length ps)%nat.
Proof. inversion 1; simpl; lia. Qed.

Lemma executed_page_effects (ps : list (Page (Request:=Request))) :
  executed (ps ≫= page_effects (Flow:=Flow) service) = page_request <$> ps.
Proof. induction ps as [|p ps IH]; simpl; [done|]. by f_equal. Qed.

Lemma list_next_page_effects (ps : list (Page (Request:=Request))) :
  count_effects is_list_next (ps ≫= page_effects (Flow:=Flow) service) = length ps.
Proof. induction ps as [|p ps IH]; simpl; [done|]. unfold count_effects in *. simpl. by f_equal. Qed.

Lemma raised_page_effects (ps : list (Page (Request:=Request))) :
  existsb is_raised (ps ≫= page_effects (Flow:=Flow) service) = false.
Proof. induction ps as [|p ps IH]; simpl; [done|]. exact IH. Qed.

(** A listing that runs to exhaustion over non-empty pages. *)
Lemma fetch_inbox_emails_exhausted w w0 request0 ps w' fuel :
  messages_list env service "me" ["INBOX"] w = (Ok request0, w0) →
  serves env service w0 request0 ps w' None →
  (length ps < fuel)%nat →
  fetch_inbox_emails env fuel service w =
    (Val (all_message_ids ps), w',
     ELog INFO FetchingEmails :: ECall (CMessagesList service "me" ["INBOX"]) None ::
     (ps ≫= page_effects service) ++ [ELog INFO (TotalFetched (length (all_message_ids ps)))]).
Proof.
  intros Hlist Hserves Hfuel.
  destruct (Nat.le_exists_sub (S (length ps)) fuel) as [k [-> _]]; [lia|].
  unfold fetch_inbox_emails. rewrite run_log_bind.
  erewrite run_try_val; [done|].
  erewrite run_bind_val; [|by apply run_call_ok].
  replace (k + S (length ps)) with (length ps + S k) by lia.
  erewrite run_bind_val.
  2:{ rewrite (fetch_loop_serves _ _ _ _ _ Hserves). simpl. reflexivity. }
  simpl. by rewrite app_nil_r.
Qed.

(** A listing that meets a page without messages after the pages [ps]. *)
Lemma fetch_inbox_emails_empty_page w w0 request0 ps w1 request response w2 fuel :
  messages_list env service "me" ["INBOX"] w = (Ok request0, w0) →
  serves env service w0 request0 ps w1 (Some request) →
  execute env request w1 = (Ok response, w2) →
  default [] (messages response) = [] →
  (length ps < fuel)%nat →
  fetch_inbox_emails env fuel service w =
    (Val (all_message_ids ps), w2,
     ELog INFO FetchingEmails :: ECall (CMessagesList service "me" ["INBOX"]) None ::
     (ps ≫= page_effects service) ++
     [ECall (CExecute request) None; ELog INFO NoMessagesFound;
      ELog INFO (TotalFetched (length (all_message_ids ps)))]).
Proof.
  intros Hlist Hserves Hex Hempty Hfuel.
  destruct (Nat.le_exists_sub (S (length ps)) fuel) as [k [-> _]]; [lia|].
  unfold fetch_inbox_emails. rewrite run_log_bind.
  erewrite run_try_val; [done|].
  erewrite run_bind_val; [|by apply run_call_ok].
  replace (k + S (length ps)) with (length ps + S k) by lia.
  erewrite run_bind_val.
  2:{ rewrite (fetch_loop_serves _ _ _ _ _ Hserves). simpl.
      erewrite run_bind_val; [|by apply run_call_ok].
      rewrite Hempty. rewrite run_log_bind. simpl. reflexivity. }
  simpl. by rewrite <- !app_assoc.
Qed.


Lemma mapM_getitem_run (msgs : list Message) (w : World) :
  (∃ ids, mapM (M := M) (λ msg, getitem msg "id") msgs w = (Val ids, w, [])) ∨
  (∃ e, mapM (M := M) (λ msg, getitem msg "id") msgs w = (Raise e, w, [])).
Proof.
  induction msgs as [|m msgs IH]; simpl.
  - left. by eexists.
  - destruct (m !! "id") as [i|] eqn:Hm.
    + destruct IH as [[ids IH]|[e IH]].
      * left. exists (i :: ids).
        erewrite run_bind_val; [|unfold getitem; by rewrite Hm].
        erewrite run_bind_val; [|exact IH]. done.
      * right. exists e.
        erewrite run_bind_val; [|unfold getitem; by rewrite Hm].
        erewrite run_bind_raise; [|exact IH]. done.
    + right. exists (KeyError "id").
      erewrite run_bind_raise; [done|]. unfold getitem. by rewrite Hm.
Qed.

(** The loop stops at the first call that raises, with that exception. *)
Lemma fetch_loop_raised fuel request acc w :
  existsb is_raised (effects (fetch_loop env fuel service request acc w)) = true →
  ∃ e, outcome (fetch_loop env fuel service request acc w) = Raise e.
Proof.
  revert request acc w. induction fuel as [|fuel IH]; intros request acc w; simpl; [done|].
  destruct request as [request|]; [|done].
  destruct (execute env request w) as [[response|e] w1] eqn:Hex.
  2:{ erewrite run_bind_raise; [|by apply run_call_err]. by eexists. }
  erewrite run_bind_val; [|by apply run_call_ok].
  destruct (default [] (messages response)) as [|m ms] eqn:Hms; [done|].
  destruct (mapM_getitem_run (m :: ms) w1) as [[ids Hids]|[e Hids]].
  2:{ erewrite run_bind_raise; [|exact Hids]. by eexists. }
  erewrite run_bind_val; [|exact Hids].
  rewrite run_log_bind.
  destruct (messages_list_next env service request response w1) as [[next|e] w2] eqn:Hnext.
  2:{ erewrite run_bind_raise; [|by apply run_call_err]. by eexists. }
  erewrite run_bind_val; [|by apply run_call_ok].
  rewrite !prepend_prepend, effects_prepend, outcome_prepend, existsb_app. simpl.
  apply IH.
Qed.



(** C2: [N] pages of one message each, chained by [N - 1] continuations, are
    listed completely and in page order with exactly [N] page requests: the
    first from [list], the others those [list_next] returned. *)
Theorem pagination_exhaustion w w0 request0 ps w' ids fuel :
  messages_list env service "me" ["INBOX"] w = (Ok request0, w0) →
  serves env service w0 request0 ps w' None →
  Forall2 (λ p id, ∃ msg : Message,
             messages (page_response p) = Some [msg] ∧ msg !! "id" = Some id) ps ids →
  (length ps < fuel)%nat →
  let r := fetch_inbox_emails env fuel service w in
  let N := length ps in
  (1 ≤ N)%nat ∧
  outcome r = Val ids ∧
  length ids = N ∧
  executed (effects r) = request0 :: omap page_next ps ∧
  length (executed (effects r)) = N ∧
  length (omap page_next ps) = (N - 1)%nat ∧
  existsb is_raised (effects r) = false.
Proof.
  intros Hlist Hserves Hone Hfuel r N. subst r N.
  pose proof (serves_exhausted_nonempty _ _ _ _ Hserves) as HN.
  pose proof (serves_requests _ _ _ _ _ Hserves) as Hreqs. simpl in Hreqs.
  rewrite app_nil_r in Hreqs.
  assert (all_message_ids ps = ids) as Hids.
  { clear Hreqs HN Hfuel Hlist. revert ids Hone.
    induction Hserves as [|wa request response ids' wb wc Hex Hpids Hne Hnext
                         |wa request response ids' wb next wc ps wd pending Hex Hpids Hne Hnext _ IH];
      intros ids Hone.
    - by inversion Hone.
    - inversion Hone as [|p id ps' ids'' (msg & Hmsg & Hid) Htl]; subst. inversion Htl; subst.
      simpl in Hmsg. unfold page_ids in Hpids. rewrite Hmsg in Hpids. simpl in Hpids.
      rewrite Hid in Hpids. simpl in Hpids. inversion Hpids. done.
    - inversion Hone as [|p id ps' ids'' (msg & Hmsg & Hid) Htl]; subst.
      simpl in Hmsg. unfold page_ids in Hpids. rewrite Hmsg in Hpids. simpl in Hpids.
      rewrite Hid in Hpids. simpl in Hpids. inversion Hpids; subst.
      unfold all_message_ids in *. simpl. f_equal. by apply IH. }
  erewrite fetch_inbox_emails_exhausted; eauto.
  unfold outcome, effects. simpl.
  assert (executed ((ps ≫= page_effects (Flow:=Flow) service) ++
            [ELog INFO (TotalFetched (length (all_message_ids ps)))]) = page_request <$> ps) as Hexd.
  { unfold executed. rewrite omap_app. fold (executed (ps ≫= page_effects (Flow:=Flow) service)).
    rewrite executed_page_effects. simpl. by rewrite app_nil_r. }
  rewrite Hexd, Hreqs, Hids.
  assert (length (omap page_next ps) = (length ps - 1)%nat) as Hconts.
  { apply (f_equal length) in Hreqs. rewrite length_fmap in Hreqs. simpl in Hreqs. lia. }
  repeat split; try done.
  - symmetry. by eapply Forall2_length.
  - simpl. lia.
  - by rewrite existsb_app, raised_page_effects.
Qed.

(** C4: the listing never lets an exception escape, and as soon as one of its
    calls has raised (the creation of the first request, a page request, the
    request for a continuation) it returns the empty list, whatever the
    earlier pages held. *)
Theorem listing_error_yields_empty fuel w :
  let r := fetch_inbox_emails env fuel service w in
  existsb is_raised (effects r) = true →
  outcome r = Val [] ∧ (∀ e, outcome r ≠ Raise e).
Proof.
  intros r Hraised. subst r. revert Hraised.
  unfold fetch_inbox_emails. rewrite run_log_bind, effects_prepend, outcome_prepend, existsb_app.
  simpl.
  destruct (messages_list env service "me" ["INBOX"] w) as [[request|e] w0] eqn:Hlist.
  2:{ erewrite run_try_raise; [|erewrite run_bind_raise; [done|by apply run_call_err]].
      intros _. by destruct e. }
  pose proof (fetch_loop_raised fuel (Some request) [] w0) as Hloop.
  destruct (fetch_loop env fuel service (Some request) [] w0) as [[[ids|e|] w1] t1] eqn:Hrun.
  - erewrite run_try_val.
    2:{ erewrite run_bind_val; [|by apply run_call_ok].
        erewrite run_bind_val; [|exact Hrun]. rewrite run_log_bind. simpl. reflexivity. }
    unfold effects, outcome in *. simpl in *. rewrite existsb_app. simpl.
    rewrite orb_false_r. intros Ht. by destruct (Hloop Ht).
  - erewrite run_try_raise.
    2:{ erewrite run_bind_val; [|by apply run_call_ok].
        erewrite run_bind_raise; [|exact Hrun]. simpl. reflexivity. }
    intros _. by destruct e.
  - erewrite run_try_out_of_fuel.
    2:{ erewrite run_bind_val; [|by apply run_call_ok].
        erewrite run_bind_out_of_fuel; [|exact Hrun]. simpl. reflexivity. }
    unfold effects, outcome in *. simpl in *. intros Ht. by destruct (Hloop Ht).
Qed.

(** The listing only logs and calls the mailbox API. *)
Lemma fetch_loop_mailbox fuel request acc w :
  forallb is_mailbox_effect (effects (fetch_loop env fuel service request acc w)) = true.
Proof.
  revert request acc w. induction fuel as [|fuel IH]; intros request acc w; simpl; [done|].
  destruct request as [request|]; [|done].
  destruct (execute env request w) as [[response|e] w1] eqn:Hex.
  2:{ erewrite run_bind_raise; [|by apply run_call_err]. done. }
  erewrite run_bind_val; [|by apply run_call_ok].
  destruct (default [] (messages response)) as [|m ms] eqn:Hms; [done|].
  destruct (mapM_getitem_run (m :: ms) w1) as [[ids Hids]|[e Hids]].
  2:{ erewrite run_bind_raise; [|exact Hids]. done. }
  erewrite run_bind_val; [|exact Hids].
  rewrite run_log_bind.
  destruct (messages_list_next env service request response w1) as [[next|e] w2] eqn:Hnext.
  2:{ erewrite run_bind_raise; [|by apply run_call_err]. done. }
  erewrite run_bind_val; [|by apply run_call_ok].
  rewrite !prepend_prepend, effects_prepend, forallb_app. simpl. apply IH.
Qed.

Lemma fetch_inbox_emails_mailbox fuel w :
  forallb is_mailbox_effect (effects (fetch_inbox_emails env fuel service w)) = true.
Proof.
  unfold fetch_inbox_emails. rewrite run_log_bind, effects_prepend. simpl.
  destruct (messages_list env service "me" ["INBOX"] w) as [[request|e] w0] eqn:Hlist.
  2:{ erewrite run_try_raise; [|erewrite run_bind_raise; [done|by apply run_call_err]].
      by destruct e. }
  pose proof (fetch_loop_mailbox fuel (Some request) [] w0) as Hloop.
  destruct (fetch_loop env fuel service (Some request) [] w0) as [[[ids|e|] w1] t1] eqn:Hrun;
    unfold effects in Hloop; simpl in Hloop.
  - erewrite run_try_val.
    2:{ erewrite run_bind_val; [|by apply run_call_ok].
        erewrite run_bind_val; [|exact Hrun]. rewrite run_log_bind. simpl. reflexivity. }
    unfold effects. simpl. by rewrite forallb_app, Hloop.
  - erewrite run_try_raise.
    2:{ erewrite run_bind_val; [|by apply run_call_ok].
        erewrite run_bind_raise; [|exact Hrun]. simpl. reflexivity. }
    rewrite effects_prepend. simpl. rewrite forallb_app, Hloop. by destruct e.
  - erewrite run_try_out_of_fuel.
    2:{ erewrite run_bind_val; [|by apply run_call_ok].
        erewrite run_bind_out_of_fuel; [|exact Hrun]. simpl. reflexivity. }
    done.
Qed.

End ListingProofs.

(** ** Archiving *)

Section ArchivingProofs.
Context {World Request Service Flow : Type}.
Variable env : Environment World Request Service Flow.
Variable service : Service.
Abbreviation M := (@M World Request Service Flow).

Lemma successes_replicate n : successes (replicate n true) = n.
Proof. induction n as [|n IH]; [done|]. unfold successes in *. simpl. by rewrite IH. Qed.

Lemma successes_app os1 os2 : successes (os1 ++ os2) = (successes os1 + successes os2)%nat.
Proof. unfold successes. by rewrite List.filter_app, length_app. Qed.

Lemma successes_le os : (successes os ≤ length os)%nat.
Proof. unfold successes. apply List.filter_length_le. Qed.

(** The loop visits every identifier: one [modify] call each, in input order,
    and the counter grows by the number of mutations that completed. *)
Lemma archive_loop_run message_ids : ∀ total i archived_count w,
  ∃ w' t,
    archive_loop env service total i message_ids archived_count w =
      (Val (archived_count + Z.of_nat (successes (mutation_outcomes env service message_ids w)))%Z,
       w', t) ∧
    modified t = message_ids ∧
    count_effects is_completed_mutation t = successes (mutation_outcomes env service message_ids w) ∧
    (count_effects is_raised t + successes (mutation_outcomes env service message_ids w))%nat
      = length message_ids.
Proof.
  induction message_ids as [|message_id rest IH]; intros total i archived_count w.
  - exists w, []. simpl. split; [|done]. rewrite run_ret. do 2 f_equal. unfold successes. simpl. f_equal. lia.
  - simpl. unfold mutate.
    destruct (messages_modify env service "me" message_id _ w) as [[request|e] w1] eqn:Hmod.
    + destruct (execute env request w1) as [[response|e] w2] eqn:Hex.
      * destruct (IH total (S i) (archived_count + 1)%Z w2) as (w' & t & Hrun & Hmodified & Hdone & Hraised).
        eexists w', _. split.
        { erewrite run_bind_val.
          2:{ erewrite run_try_val; [done|].
              erewrite run_bind_val; [|by apply run_call_ok].
              erewrite run_bind_val; [|by apply run_call_ok].
              rewrite run_log_bind. simpl. reflexivity. }
          rewrite Hrun. simpl. do 2 f_equal. f_equal. unfold successes. simpl. lia. }
        rewrite !count_effects_cons. unfold successes in *. cbn.
        repeat split; [by f_equal | by rewrite Hdone | lia].
      * destruct (IH total (S i) archived_count w2) as (w' & t & Hrun & Hmodified & Hdone & Hraised).
        eexists w', _. split.
        { erewrite run_bind_val.
          2:{ erewrite run_try_raise.
              2:{ erewrite run_bind_val; [|by apply run_call_ok].
                  erewrite run_bind_raise; [done|by apply run_call_err]. }
              assert (∀ w0, (match e with
                       | HttpError _ _ => log ERROR (ApiErrorArchiving message_id e)
                       | _ => log ERROR (UnexpectedErrorArchiving message_id e)
                       end ≫= (λ _, mret archived_count) : M Z) w0 =
                      (Val archived_count, w0,
                       [ELog ERROR (match e with
                                    | HttpError _ _ => ApiErrorArchiving message_id e
                                    | _ => UnexpectedErrorArchiving message_id e end)])) as ->
                by (intros; by destruct e).
              simpl. reflexivity. }
          rewrite Hrun. simpl. reflexivity. }
        rewrite !count_effects_cons. unfold successes in *. cbn.
        repeat split; [by f_equal | done | lia].
    + destruct (IH total (S i) archived_count w1) as (w' & t & Hrun & Hmodified & Hdone & Hraised).
      eexists w', _. split.
      { erewrite run_bind_val.
        2:{ erewrite run_try_raise.
            2:{ erewrite run_bind_raise; [done|by apply run_call_err]. }
            assert (∀ w0, (match e with
                     | HttpError _ _ => log ERROR (ApiErrorArchiving message_id e)
                     | _ => log ERROR (UnexpectedErrorArchiving message_id e)
                     end ≫= (λ _, mret archived_count) : M Z) w0 =
                    (Val archived_count, w0,
                     [ELog ERROR (match e with
                                  | HttpError _ _ => ApiErrorArchiving message_id e
                                  | _ => UnexpectedErrorArchiving message_id e end)])) as ->
              by (intros; by destruct e).
            simpl. reflexivity. }
        rewrite Hrun. simpl. reflexivity. }
      rewrite !count_effects_cons. unfold successes in *. cbn.
      repeat split; [by f_equal | done | lia].
Qed.


Lemma archive_emails_run message_ids w :
  ∃ w' t,
    archive_emails env service message_ids w =
      (Val (Z.of_nat (successes (mutation_outcomes env service message_ids w))), w', t) ∧
    modified t = message_ids ∧
    count_effects is_completed_mutation t = successes (mutation_outcomes env service message_ids w) ∧
    (count_effects is_raised t + successes (mutation_outcomes env service message_ids w))%nat
      = length message_ids.
Proof.
  destruct message_ids as [|message_id rest].
  - exists w, [ELog INFO NoEmailsToArchive]. by cbn.
  - destruct (archive_loop_run (message_id :: rest) (length (message_id :: rest)) 0%nat 0%Z w)
      as (w' & t & Hrun & Hmodified & Hdone & Hraised).
    remember (mutation_outcomes env service (message_id :: rest) w) as outcomes.
    eexists w', _. split.
    { unfold archive_emails. lazy beta iota. rewrite run_log_bind.
      erewrite run_bind_val; [|exact Hrun]. rewrite run_log_bind, run_ret.
      unfold prepend. reflexivity. }
    rewrite <- !modified_app, !count_effects_app, Hmodified, Hdone.
    cbn. cbn in Hraised. rewrite app_nil_r. repeat split; lia.
Qed.

(** C3: when the mutation fails for exactly one of [K] identifiers, the one at
    index [i], the archive operation still calls [modify] once for each of the
    [K] identifiers in input order, those after [i] included, and returns
    [K - 1]. *)
Theorem partial_archive_tolerance message_ids i w :
  (i < length message_ids)%nat →
  mutation_outcomes env service message_ids w =
    replicate i true ++ false :: replicate (length message_ids - i - 1) true →
  let r := archive_emails env service message_ids w in
  let K := length message_ids in
  outcome r = Val (Z.of_nat K - 1)%Z ∧
  modified (effects r) = message_ids ∧
  length (modified (effects r)) = K ∧
  count_effects is_raised (effects r) = 1%nat.
Proof.
  intros Hi Hpattern r K. subst r K.
  destruct (archive_emails_run message_ids w) as (w' & t & Hrun & Hmodified & Hdone & Hraised).
  rewrite Hrun. unfold outcome, effects. simpl.
  assert (successes (mutation_outcomes env service message_ids w) = (length message_ids - 1)%nat)
    as Hsucc.
  { rewrite Hpattern, successes_app. change (false :: ?l) with ([false] ++ l).
    rewrite successes_app, !successes_replicate. cbn. lia. }
  rewrite Hsucc in *. rewrite Hmodified. repeat split; [f_equal; lia | lia].
Qed.

(** C9: on the empty list the archive operation returns 0 and calls nothing. *)
Theorem archive_empty_input w :
  let r := archive_emails env service [] w in
  outcome r = Val 0%Z ∧ calls (effects r) = [] ∧ modified (effects r) = [] ∧ final_world r = w.
Proof. by cbn. Qed.

(** C10: whatever the pattern of success and failure, the archive operation
    returns a count between 0 and the length of its input, equal to the number
    of items whose mutation completed without raising. *)
Theorem archived_count_counts_successes message_ids w :
  let r := archive_emails env service message_ids w in
  ∃ count : Z,
    outcome r = Val count ∧
    (0 ≤ count ≤ Z.of_nat (length message_ids))%Z ∧
    count = Z.of_nat (successes (mutation_outcomes env service message_ids w)) ∧
    count = Z.of_nat (count_effects is_completed_mutation (effects r)) ∧
    count = (Z.of_nat (length message_ids) - Z.of_nat (count_effects is_raised (effects r)))%Z.
Proof.
  intros r. subst r.
  destruct (archive_emails_run message_ids w) as (w' & t & Hrun & Hmodified & Hdone & Hraised).
  rewrite Hrun. unfold outcome, effects. simpl. eexists. split; [done|].
  pose proof (successes_le (mutation_outcomes env service message_ids w)) as Hle.
  assert (length (mutation_outcomes env service message_ids w) = length message_ids) as Hlen.
  { clear. revert w. induction message_ids as [|m rest IH]; intros w; simpl; [done|].
    destruct (mutate env service m w) as [completed w1]. simpl. by rewrite IH. }
  rewrite Hdone. repeat split; lia.
Qed.

(** The archiving only logs and calls the mailbox API. *)
Lemma archive_loop_mailbox message_ids : ∀ total i archived_count w,
  forallb is_mailbox_effect
    (effects (archive_loop env service total i message_ids archived_count w)) = true.
Proof.
  induction message_ids as [|message_id rest IH]; intros total i archived_count w; [done|].
  simpl.
  assert (∃ a w1 (t1 : list (Effect Request Service Flow)),
    try_except
      (let body : Body := {[ "removeLabelIds" := ["INBOX"] ]} in
       request ← call (CMessagesModify service "me" message_id body)
                      (messages_modify env service "me" message_id body);
       call (CExecute request) (execute env request);;
       let archived_count := (archived_count + 1)%Z in
       log INFO (ArchivedEmail (i + 1) total message_id);;
       mret archived_count)
      (λ e,
        match e with
        | HttpError _ _ => log ERROR (ApiErrorArchiving message_id e)
        | _ => log ERROR (UnexpectedErrorArchiving message_id e)
        end;;
        mret archived_count) w = (Val a, w1, t1) ∧ forallb is_mailbox_effect t1 = true)
    as (a & w1 & t1 & Hbody & Ht1).
  { unfold try_except, mbind, M_bind, bind, call, log, mret, M_ret, ret, prepend.
    repeat (case_match; simplify_eq/=); by eexists _, _, _. }
  erewrite run_bind_val; [|exact Hbody].
  rewrite effects_prepend, forallb_app, Ht1. apply IH.
Qed.

Lemma archive_emails_mailbox message_ids w :
  forallb is_mailbox_effect (effects (archive_emails env service message_ids w)) = true.
Proof.
  destruct message_ids as [|message_id rest]; [done|].
  unfold archive_emails. lazy beta iota. rewrite run_log_bind, effects_prepend. simpl.
  pose proof (archive_loop_mailbox (message_id :: rest)
                (length (message_id :: rest)) 0%nat 0%Z w) as Hloop.
  destruct (archive_loop env service _ _ (message_id :: rest) 0%Z w) as [[[n|e|] w1] t1] eqn:Hrun;
    unfold effects in Hloop; simpl in Hloop.
  - erewrite run_bind_val; [|exact Hrun]. rewrite run_log_bind, run_ret. unfold effects. simpl.
    by rewrite forallb_app, Hloop.
  - erewrite run_bind_raise; [|exact Hrun]. done.
  - erewrite run_bind_out_of_fuel; [|exact Hrun]. done.
Qed.

End ArchivingProofs.

(** ** The credential operation and the whole run *)

Section CredentialProofs.
Context {World Request Service Flow : Type}.
Variable env : Environment World Request Service Flow.
Abbreviation M := (@M World Request Service Flow).

(** Unfolds the credential operation down to the handlers and splits on
    every answer a handler can give. *)
Ltac unfold_stages :=
  unfold authenticate_gmail, obtain_credentials, load_token, validate_or_refresh,
    new_oauth_flow, save_token, build_service,
    mbind, M_bind, bind, mret, M_ret, ret, try_except, call, call_total, log, prepend.

Ltac split_run := unfold_stages; repeat (case_match; simplify_eq/=); simpl.

(** Everything before the final check returns normally; an early return is a
    return of [None]; the grant flow is launched at most once. *)
Lemma obtain_credentials_run w :
  ∃ v w1 t1,
    obtain_credentials env w = (Val v, w1, t1) ∧
    (∀ returned, v = inl returned → returned = None) ∧
    (flow_launches t1 ≤ 1)%nat.
Proof.
  split_run; eexists _, _, _; (split; [reflexivity|]); split; try (intros; by simplify_eq);
    cbn; lia.
Qed.


Lemma bind_assoc {A B C} (m : M A) (f : A → M B) (g : B → M C) w :
  ((m ≫= f) ≫= g) w = (m ≫= λ a, f a ≫= g) w.
Proof.
  unfold mbind, M_bind, bind. destruct (m w) as [[[a|e|] w1] t1]; try done.
  destruct (f a w1) as [[[b|e|] w2] t2]; simpl; try done.
  destruct (g b w2) as [[o w3] t3]. simpl. by rewrite app_assoc.
Qed.

(** The final check and the construction of the service: a service is
    returned only for a credential whose validity flag is set. *)
Lemma build_service_run creds w :
  ∃ v w1 t1,
    build_service env creds w = (Val v, w1, t1) ∧
    count_effects is_flow_launch t1 = 0%nat ∧
    count_effects is_grant_call t1 = 0%nat ∧
    (∀ service, v = Some service →
       ∃ c, creds = Some c ∧ valid c = true ∧ build env "gmail" "v1" c w = (Ok service, w1) ∧
            t1 = [ECall (CBuild "gmail" "v1" c) None; ELog INFO ServiceBuilt]) ∧
    ((∀ c, creds = Some c → valid c = false) → v = None).
Proof.
  split_run; eexists _, _, _; (split; [reflexivity|]); repeat split; try done;
    try (intros; simplify_eq; by eauto).
  all: intros Hc; specialize (Hc _ eq_refl); congruence.
Qed.

Lemma authenticate_gmail_run w :
  ∃ v w1 t1 v' w2 t2,
    obtain_credentials env w = (Val v, w1, t1) ∧
    match v with inl returned => ret returned | inr creds => build_service env creds end w1
      = (Val v', w2, t2) ∧
    authenticate_gmail env w = (Val v', w2, t1 ++ t2).
Proof.
  destruct (obtain_credentials_run w) as (v & w1 & t1 & Hrun & Hearly & Hflow).
  assert (∃ v' w2 t2, match v with inl returned => ret returned | inr creds => build_service env creds end w1
      = (Val v', w2, t2)) as (v' & w2 & t2 & Hbuild).
  { destruct v as [returned|creds]; [by eexists _, _, _|].
    destruct (build_service_run creds w1) as (v' & w2 & t2 & Hb & _). by eexists _, _, _. }
  exists v, w1, t1, v', w2, t2. repeat split; try done.
  unfold authenticate_gmail. erewrite run_bind_val; [|exact Hrun].
  change (@mret _ M_ret) with (@ret World Request Service Flow). by rewrite Hbuild.
Qed.

(** C8: the credential operation returns a service only when the credential
    it holds after loading, refreshing, granting and persisting has its
    validity flag set, and the service is the one built from that credential;
    in every other case it returns [None]: it never raises. *)
Theorem service_only_for_valid_credentials w :
  let r := authenticate_gmail env w in
  let obtained := obtain_credentials env w in
  (∀ service, outcome r = Val (Some service) →
     ∃ creds, outcome obtained = Val (inr (Some creds)) ∧ valid creds = true ∧
              build env "gmail" "v1" creds (final_world obtained) = (Ok service, final_world r)) ∧
  ((∀ creds, outcome obtained = Val (inr (Some creds)) → valid creds = false) →
     outcome r = Val None) ∧
  (outcome r = Val None ∨ ∃ service, outcome r = Val (Some service)).
Proof.
  intros r obtained. subst r obtained.
  destruct (authenticate_gmail_run w) as (v & w1 & t1 & v' & w2 & t2 & Hobt & Hfin & Hrun).
  destruct (obtain_credentials_run w) as (v0 & w0 & t0 & Hobt' & Hearly & _).
  assert (v0 = v) as -> by congruence. clear Hobt'.
  rewrite Hrun, Hobt. unfold outcome, final_world. simpl.
  destruct v as [returned|creds].
  - rewrite (Hearly returned eq_refl) in Hfin. unfold ret in Hfin. simplify_eq.
    split; [done|]. split; [done|by left].
  - destruct (build_service_run creds w1) as (v & w3 & t3 & Hb & _ & _ & Hsome & Hnone).
    rewrite Hb in Hfin. simplify_eq. split; [|split].
    + intros service [= ->]. destruct (Hsome service eq_refl) as (c & -> & Hvalid & Hbuild & _).
      by exists c.
    + intros Hinvalid. f_equal. apply Hnone. intros c ->. by apply Hinvalid.
    + destruct v' as [service|]; [right; by eexists|by left].
Qed.


(** A whole run launches the grant flow as often as its credential
    operation does. *)
Lemma main_flow_launches fuel w :
  flow_launches (effects (main env fuel w)) = flow_launches (effects (authenticate_gmail env w)).
Proof.
  destruct (authenticate_gmail_run w) as (v & w1 & t1 & v' & w2 & t2 & _ & _ & Hauth).
  unfold main. rewrite run_log_bind, effects_prepend.
  erewrite run_bind_val; [|exact Hauth]. rewrite effects_prepend, Hauth.
  unfold flow_launches, effects at 2. simpl. rewrite count_effects_cons, count_effects_app. simpl.
  enough (∀ r : Outcome unit * World * list (Effect Request Service Flow),
            forallb is_mailbox_effect (effects r) = true →
            count_effects is_flow_launch (effects r) = 0%nat) as Hmailbox.
  { rewrite Hmailbox; [lia|]. destruct v' as [service|]; [|done].
    pose proof (fetch_inbox_emails_mailbox env service fuel w2) as Hfetch.
    destruct (fetch_inbox_emails env fuel service w2) as [[[ids|e|] w3] t3] eqn:Hrun;
      unfold effects in Hfetch; simpl in Hfetch.
    - erewrite run_bind_val; [|exact Hrun]. rewrite effects_prepend, forallb_app, Hfetch. simpl.
      destruct ids as [|id ids]; [done|].
      pose proof (archive_emails_mailbox env service (id :: ids) w3) as Harch.
      destruct (archive_emails env service (id :: ids) w3) as [[[n|e|] w4] t4] eqn:Hrun';
        unfold effects in Harch; simpl in Harch.
      + erewrite run_bind_val; [|exact Hrun']. rewrite run_log_bind, run_ret. unfold effects. simpl.
        by rewrite forallb_app, Harch.
      + erewrite run_bind_raise; [|exact Hrun']. done.
      + erewrite run_bind_out_of_fuel; [|exact Hrun']. done.
    - erewrite run_bind_raise; [|exact Hrun]. done.
    - erewrite run_bind_out_of_fuel; [|exact Hrun]. done. }
  intros r. apply forallb_mailbox_no_flow.
Qed.


Lemma authenticate_gmail_flow_launches w :
  (flow_launches (effects (authenticate_gmail env w)) ≤ 1)%nat.
Proof.
  destruct (authenticate_gmail_run w) as (v & w1 & t1 & v' & w2 & t2 & Hobt & Hfin & ->).
  destruct (obtain_credentials_run w) as (v0 & w0 & t0 & Hobt' & _ & Hflow).
  assert (t0 = t1) as -> by congruence.
  unfold effects, flow_launches in *. simpl. rewrite count_effects_app.
  enough (count_effects is_flow_launch t2 = 0%nat) by lia.
  destruct v as [returned|creds]; [unfold ret in Hfin; by simplify_eq|].
  destruct (build_service_run creds w1) as (v & w3 & t3 & Hb & Hno & _). congruence.
Qed.

(** C5: a loaded, expired credential with a refresh token whose refresh
    succeeds is used without the grant flow (neither constructed nor run);
    and a whole run of the program launches the grant flow at most once. *)
Theorem refresh_precedes_grant w fuel :
  (∀ w1 creds w2 refreshed w3,
     os_path_exists env TOKEN_FILE w = (true, w1) →
     from_authorized_user_file env TOKEN_FILE SCOPES w1 = (Ok creds, w2) →
     expired creds = true → truthy (refresh_token creds) = true →
     refresh env creds w2 = (Ok refreshed, w3) →
     count_effects is_grant_call (effects (authenticate_gmail env w)) = 0%nat ∧
     flow_launches (effects (authenticate_gmail env w)) = 0%nat) ∧
  (flow_launches (effects (main env fuel w)) ≤ 1)%nat.
Proof.
  split.
  - intros w1 creds w2 refreshed w3 Hexists Hload Hexpired Htoken Hrefresh.
    unfold flow_launches.
    unfold_stages. rewrite Hexists. simpl. rewrite Hload. simpl.
    destruct (valid creds); simpl.
    + repeat (case_match; simplify_eq/=); done.
    + rewrite Hexpired, Htoken. simpl. rewrite Hrefresh. simpl.
      repeat (case_match; simplify_eq/=); done.
  - rewrite main_flow_launches. apply authenticate_gmail_flow_launches.
Qed.

(** C6, as the code has it: when the refresh of a loaded, expired credential
    raises, the credential is dropped and the operation goes on to the grant
    path.  With the client-secret file present and loadable the grant flow is
    run exactly once, and when it returns a credential, that credential, not
    the loaded one, is what is persisted, checked and handed to [build]. *)
Theorem refresh_failure_falls_back_to_grant w w1 creds w2 e w3 w4 flow w5 :
  os_path_exists env TOKEN_FILE w = (true, w1) →
  from_authorized_user_file env TOKEN_FILE SCOPES w1 = (Ok creds, w2) →
  valid creds = false → expired creds = true → truthy (refresh_token creds) = true →
  refresh env creds w2 = (Err e, w3) →
  os_path_exists env CLIENT_SECRETS_FILE w3 = (true, w4) →
  from_client_secrets_file env CLIENT_SECRETS_FILE SCOPES w4 = (Ok flow, w5) →
  let r := authenticate_gmail env w in
  let obtained := obtain_credentials env w in
  flow_launches (effects r) = 1%nat ∧
  ∀ granted w6,
    run_local_server env flow 0 w5 = (Ok (Some granted), w6) →
    outcome obtained = Val (inr (Some granted)) ∧
    r = prepend (effects obtained) (build_service env (Some granted) (final_world obtained)) ∧
    (∀ service, outcome r = Val (Some service) →
       valid granted = true ∧
       build env "gmail" "v1" granted (final_world obtained) = (Ok service, final_world r)) ∧
    file_writes (effects r) = [(TOKEN_FILE, to_json env granted)] ∧
    built_with (effects r) = (if valid granted then [granted] else []).
Proof.
  intros Hexists Hload Hvalid Hexpired Htoken Hrefresh Hsecrets Hflow r obtained.
  assert (∀ launched w6, run_local_server env flow 0 w5 = (launched, w6) →
          ∃ v t1,
            obtained = (Val v, final_world obtained, t1) ∧
            flow_launches t1 = 1%nat ∧
            (∀ granted, launched = Ok (Some granted) →
               v = inr (Some granted) ∧
               file_writes t1 = [(TOKEN_FILE, to_json env granted)] ∧
               built_with t1 = [])) as Hobt.
  { intros launched w6 Hrun. subst obtained. unfold flow_launches.
    unfold_stages. rewrite Hexists. simpl. rewrite Hload. simpl.
    rewrite Hvalid, Hexpired, Htoken. simpl. rewrite Hrefresh. simpl.
    rewrite Hsecrets. simpl. rewrite Hflow. simpl. rewrite Hrun.
    destruct launched as [[granted|]|e']; simpl;
      repeat (case_match; simplify_eq/=); eexists _, _; (split; [reflexivity|]);
      (split; [done|]); intros; by simplify_eq. }
  destruct (run_local_server env flow 0 w5) as [launched w6] eqn:Hrun.
  destruct (Hobt launched w6 eq_refl) as (v & t1 & Hobtained & Hone & Hgranted).
  assert (r = prepend t1 (match v with inl returned => ret returned
                          | inr c => build_service env c end (final_world obtained))) as Hr.
  { subst r. unfold authenticate_gmail. fold obtained.
    erewrite run_bind_val; [|exact Hobtained]. by destruct v. }
  split.
  - rewrite Hr, effects_prepend. unfold flow_launches in *. rewrite count_effects_app, Hone.
    destruct v as [returned|c]; [done|].
    destruct (build_service_run c (final_world obtained)) as (v & wb & tb & -> & Hno & _).
    unfold effects. simpl. by rewrite Hno.
  - intros granted w7 [= -> ->].
    destruct (Hgranted granted eq_refl) as (-> & Hwritten & Hbuilt).
    split; [by rewrite Hobtained|].
    split; [rewrite Hr; f_equal; by rewrite Hobtained|].
    split.
    { intros service Hservice. rewrite Hr, outcome_prepend in Hservice.
      rewrite Hr, final_world_prepend.
      destruct (build_service_run (Some granted) (final_world obtained))
        as (v & wb & tb & Hb & _ & _ & Hsome & _).
      rewrite Hb in *. unfold outcome, final_world in Hservice |- *. simpl in *. simplify_eq.
      destruct (Hsome service eq_refl) as (c & [= <-] & Hv & Hbuild & _). done. }
    assert (file_writes (effects (build_service env (Some granted) (final_world obtained))) = [] ∧
            built_with (effects (build_service env (Some granted) (final_world obtained)))
              = (if valid granted then [granted] else [])) as [Hwb Hbb].
    { unfold build_service,
        mbind, M_bind, bind, mret, M_ret, ret, try_except, call, call_total, log, prepend.
      repeat (case_match; simplify_eq/=); done. }
    rewrite Hr, effects_prepend. unfold file_writes, built_with in *.
    rewrite !omap_app, Hwritten, Hbuilt, Hwb, Hbb. done.
Qed.

(** C7, as the code has it: when no usable credential is held after loading
    and refreshing and the client-secret file is absent, the operation
    returns [None] without constructing or running the grant flow, building
    the service or calling the mailbox.  The only network call that can have
    been made by then is a token refresh that raised. *)
Theorem missing_client_secrets_is_fatal w dirty w1 t1 w2 :
  (load_token env None ≫= λ creds, validate_or_refresh env creds false) w
    = (Val (None, dirty), w1, t1) →
  os_path_exists env CLIENT_SECRETS_FILE w1 = (false, w2) →
  let r := authenticate_gmail env w in
  outcome r = Val None ∧
  count_effects is_grant_call (effects r) = 0%nat ∧
  (network_effects (effects r) = [] ∨
   ∃ creds e, network_effects (effects r) = [ECall (CRefresh creds) (Some e)]).
Proof.
  intros Hstate Hsecrets r.
  assert (authenticate_gmail env w =
          (Val None, w2, t1 ++ [ELog INFO AttemptingNewFlow;
                                ECall (COsPathExists CLIENT_SECRETS_FILE) None;
                                ELog ERROR ClientSecretsNotFound;
                                ELog ERROR FollowPrerequisites])) as Hr.
  { unfold authenticate_gmail. erewrite run_bind_val.
    2:{ unfold obtain_credentials.
        rewrite <- bind_assoc. erewrite run_bind_val; [|exact Hstate].
        unfold new_oauth_flow. erewrite run_bind_val.
        2:{ rewrite run_log_bind.
            erewrite run_bind_val; [|unfold call_total; by rewrite Hsecrets].
            simpl. reflexivity. }
        simpl. reflexivity. }
    simpl. by rewrite app_nil_r. }
  subst r. rewrite Hr. unfold outcome, effects. simpl. split; [done|].
  rewrite count_effects_app. unfold network_effects. rewrite List.filter_app. simpl.
  rewrite app_nil_r. clear Hr Hsecrets. revert Hstate.
  unfold load_token, validate_or_refresh,
    mbind, M_bind, bind, mret, M_ret, ret, try_except, call, call_total, log, prepend.
  intros Hstate. repeat (case_match; simplify_eq/=); (split; [done|]); eauto.
Qed.

End CredentialProofs.

(** ** The theorems at scripted environments *)



(** The two pages of the pagination test. *)
Lemma pagination_exhaustion_witness :
  let r := fetch_inbox_emails (Mock.env Mock.two_pages) 3 tt tt in
  (1 ≤ 2)%nat ∧
  outcome r = Val ["msg1"; "msg2"] ∧
  length ["msg1"; "msg2"] = 2%nat ∧
  executed (effects r) = [Mock.PageRequest 0; Mock.PageRequest 1] ∧
  length (executed (effects r)) = 2%nat ∧
  length [Mock.PageRequest 1] = 1%nat ∧
  existsb is_raised (effects r) = false.
Proof.
  apply (pagination_exhaustion (Mock.env Mock.two_pages) tt tt tt (Mock.PageRequest 0)
           [mkPage (Mock.PageRequest 0)
              (mkResponse (Some [Mock.msg "msg1"]) (Some "pageToken123")) ["msg1"]
              (Some (Mock.PageRequest 1));
            mkPage (Mock.PageRequest 1) (mkResponse (Some [Mock.msg "msg2"]) None) ["msg2"] None]
           tt ["msg1"; "msg2"] 3).
  - reflexivity.
  - eapply serves_cons; [reflexivity|reflexivity|done|reflexivity|].
    eapply serves_last; [reflexivity|reflexivity|done|reflexivity].
  - repeat constructor; eexists; (split; [reflexivity|reflexivity]).
  - simpl. lia.
Defined.

(** Three identifiers, the mutation of the second fails. *)
Lemma partial_archive_tolerance_witness :
  let r := archive_emails (Mock.env Mock.msg2_fails) tt ["msg1"; "msg2"; "msg3"] tt in
  outcome r = Val 2%Z ∧
  modified (effects r) = ["msg1"; "msg2"; "msg3"] ∧
  length (modified (effects r)) = 3%nat ∧
  count_effects is_raised (effects r) = 1%nat.
Proof.
  apply (partial_archive_tolerance (Mock.env Mock.msg2_fails) tt ["msg1"; "msg2"; "msg3"] 1 tt).
  - simpl. lia.
  - reflexivity.
Defined.

(** The first page holds a message, the second page request raises. *)
Lemma listing_error_yields_empty_witness :
  let r := fetch_inbox_emails (Mock.env Mock.second_page_fails) 5 tt tt in
  executed (effects r) = [Mock.PageRequest 0; Mock.PageRequest 1] ∧
  outcome r = Val [] ∧ (∀ e, outcome r ≠ Raise e).
Proof.
  split; [reflexivity|].
  apply (listing_error_yields_empty (Mock.env Mock.second_page_fails) tt 5 tt). reflexivity.
Defined.

(** A stored, expired credential whose refresh succeeds. *)
Lemma refresh_precedes_grant_witness :
  let r := authenticate_gmail (Mock.env Mock.refresh_succeeds) tt in
  outcome r = Val (Some tt) ∧
  count_effects is_grant_call (effects r) = 0%nat ∧
  flow_launches (effects r) = 0%nat.
Proof.
  split; [reflexivity|].
  apply (proj1 (refresh_precedes_grant (Mock.env Mock.refresh_succeeds) tt 0)
           tt Mock.expired_creds tt Mock.refreshed_creds tt); reflexivity.
Defined.

(** C6 fails on the code: the refresh of a loaded, expired credential with a
    refresh token raises, the client-secret file is absent, and the operation
    returns [None] without running the grant flow. *)
Lemma refresh_failure_without_client_secrets :
  let env := Mock.env Mock.refresh_fails_no_secrets in
  let r := authenticate_gmail env tt in
  from_authorized_user_file env TOKEN_FILE SCOPES tt = (Ok Mock.expired_creds, tt) ∧
  expired Mock.expired_creds = true ∧
  truthy (refresh_token Mock.expired_creds) = true ∧
  refresh env Mock.expired_creds tt = (Err (OtherException "Refresh failed"), tt) ∧
  os_path_exists env CLIENT_SECRETS_FILE tt = (false, tt) ∧
  flow_launches (effects r) = 0%nat ∧
  outcome r = Val None.
Proof. repeat split; reflexivity. Qed.

(** A stored, expired credential whose refresh raises, with the client-secret
    file in place. *)
Lemma refresh_failure_falls_back_to_grant_witness :
  let r := authenticate_gmail (Mock.env Mock.refresh_fails) tt in
  let obtained := obtain_credentials (Mock.env Mock.refresh_fails) tt in
  flow_launches (effects r) = 1%nat ∧
  ∀ granted w6,
    run_local_server (Mock.env Mock.refresh_fails) tt 0 tt = (Ok (Some granted), w6) →
    outcome obtained = Val (inr (Some granted)) ∧
    r = prepend (effects obtained)
          (build_service (Mock.env Mock.refresh_fails) (Some granted) (final_world obtained)) ∧
    (∀ service, outcome r = Val (Some service) →
       valid granted = true ∧
       build (Mock.env Mock.refresh_fails) "gmail" "v1" granted (final_world obtained)
         = (Ok service, final_world r)) ∧
    file_writes (effects r) = [(TOKEN_FILE, to_json (Mock.env Mock.refresh_fails) granted)] ∧
    built_with (effects r) = (if valid granted then [granted] else []).
Proof.
  apply (refresh_failure_falls_back_to_grant (Mock.env Mock.refresh_fails)
           tt tt Mock.expired_creds tt (OtherException "Refresh failed") tt tt tt tt);
    reflexivity.
Defined.

(** C7 fails on the code: the client-secret file is absent and the operation
    returns [None], but only after the refresh of the stored credential has
    gone to the token endpoint and failed. *)
Lemma network_call_before_missing_client_secrets :
  let env := Mock.env Mock.refresh_fails_no_secrets in
  let r := authenticate_gmail env tt in
  os_path_exists env CLIENT_SECRETS_FILE tt = (false, tt) ∧
  outcome r = Val None ∧
  network_effects (effects r)
    = [ECall (CRefresh Mock.expired_creds) (Some (OtherException "Refresh failed"))].
Proof. repeat split; reflexivity. Qed.

(** Neither a token store nor a client-secret file. *)
Lemma missing_client_secrets_is_fatal_witness :
  let r := authenticate_gmail (Mock.env Mock.blank) tt in
  outcome r = Val None ∧
  count_effects is_grant_call (effects r) = 0%nat ∧
  (network_effects (effects r) = [] ∨
   ∃ creds e, network_effects (effects r) = [ECall (CRefresh creds) (Some e)]).
Proof.
  apply (missing_client_secrets_is_fatal (Mock.env Mock.blank) tt false tt
           [ECall (COsPathExists TOKEN_FILE) None] tt); reflexivity.
Defined.

(** * Further properties *)

(** ** More on the listing *)

Section ListingMore.
Context {World Request Service Flow : Type}.
Variable env : Environment World Request Service Flow.
Variable service : Service.
Abbreviation M := (@M World Request Service Flow).

Lemma mapM_getitem_missing (msgs : list Message) (w : World) :
  Exists (λ msg : Message, msg !! "id" = None) msgs →
  mapM (M := M) (λ msg, getitem msg "id") msgs w = (Raise (KeyError "id"), w, []).
Proof.
  induction 1 as [m msgs Hm|m msgs _ IH]; simpl.
  - erewrite run_bind_raise; [done|]. unfold getitem. by rewrite Hm.
  - destruct (m !! "id") as [i|] eqn:Hm.
    + erewrite run_bind_val; [|unfold getitem; by rewrite Hm].
      erewrite run_bind_raise; [|exact IH]. done.
    + erewrite run_bind_raise; [done|]. unfold getitem. by rewrite Hm.
Qed.

Lemma fetch_loop_listing fuel request acc w :
  forallb is_listing_effect (effects (fetch_loop env fuel service request acc w)) = true.
Proof.
  revert request acc w. induction fuel as [|fuel IH]; intros request acc w; simpl; [done|].
  destruct request as [request|]; [|done].
  destruct (execute env request w) as [[response|e] w1] eqn:Hex.
  2:{ erewrite run_bind_raise; [|by apply run_call_err]. done. }
  erewrite run_bind_val; [|by apply run_call_ok].
  destruct (default [] (messages response)) as [|m ms] eqn:Hms; [done|].
  destruct (mapM_getitem_run (Request:=Request) (Service:=Service) (Flow:=Flow) (m :: ms) w1)
    as [[ids Hids]|[e Hids]].
  2:{ erewrite run_bind_raise; [|exact Hids]. done. }
  erewrite run_bind_val; [|exact Hids].
  rewrite run_log_bind.
  destruct (messages_list_next env service request response w1) as [[next|e] w2] eqn:Hnext.
  2:{ erewrite run_bind_raise; [|by apply run_call_err]. done. }
  erewrite run_bind_val; [|by apply run_call_ok].
  rewrite !prepend_prepend, effects_prepend, forallb_app. simpl. apply IH.
Qed.

(** How a listing ends, given how its loop ends. *)
Lemma fetch_inbox_emails_cases fuel w :
  (∃ e w0, messages_list env service "me" ["INBOX"] w = (Err e, w0) ∧
     ∃ t, fetch_inbox_emails env fuel service w = (Val [], w0, t)) ∨
  (∃ request w0, messages_list env service "me" ["INBOX"] w = (Ok request, w0) ∧
     let loop := fetch_loop env fuel service (Some request) [] w0 in
     match outcome loop with
     | Val ids =>
       fetch_inbox_emails env fuel service w =
         (Val ids, final_world loop,
          ELog INFO FetchingEmails :: ECall (CMessagesList service "me" ["INBOX"]) None ::
          effects loop ++ [ELog INFO (TotalFetched (length ids))])
     | Raise e =>
       ∃ msg, fetch_inbox_emails env fuel service w =
         (Val [], final_world loop,
          ELog INFO FetchingEmails :: ECall (CMessagesList service "me" ["INBOX"]) None ::
          effects loop ++ [ELog ERROR msg])
     | OutOfFuel =>
       fetch_inbox_emails env fuel service w =
         (OutOfFuel, final_world loop,
          ELog INFO FetchingEmails :: ECall (CMessagesList service "me" ["INBOX"]) None ::
          effects loop)
     end).
Proof.
  unfold fetch_inbox_emails. rewrite run_log_bind.
  destruct (messages_list env service "me" ["INBOX"] w) as [[request|e] w0] eqn:Hlist.
  2:{ left. exists e, w0. split; [done|].
      erewrite run_try_raise; [|erewrite run_bind_raise; [done|by apply run_call_err]].
      destruct e; by eexists. }
  right. exists request, w0. split; [done|]. simpl.
  destruct (fetch_loop env fuel service (Some request) [] w0) as [[[ids|e|] w1] t1] eqn:Hrun;
    unfold outcome, final_world, effects; simpl.
  - erewrite run_try_val.
    2:{ erewrite run_bind_val; [|by apply run_call_ok].
        erewrite run_bind_val; [|exact Hrun]. rewrite run_log_bind. simpl. reflexivity. }
    done.
  - erewrite run_try_raise.
    2:{ erewrite run_bind_val; [|by apply run_call_ok].
        erewrite run_bind_raise; [|exact Hrun]. simpl. reflexivity. }
    destruct e; by eexists.
  - erewrite run_try_out_of_fuel.
    2:{ erewrite run_bind_val; [|by apply run_call_ok].
        erewrite run_bind_out_of_fuel; [|exact Hrun]. simpl. reflexivity. }
    done.
Qed.

(** X1: a listing that runs to exhaustion returns the identifiers of all its
    pages, whatever their sizes, in page order and within a page in message
    order, repeated identifiers included; it executes one request per page
    and raises nothing. *)
Theorem listing_concatenates_pages w w0 request0 ps w' fuel :
  messages_list env service "me" ["INBOX"] w = (Ok request0, w0) →
  serves env service w0 request0 ps w' None →
  (length ps < fuel)%nat →
  let r := fetch_inbox_emails env fuel service w in
  outcome r = Val (all_message_ids ps) ∧
  final_world r = w' ∧
  executed (effects r) = page_request <$> ps ∧
  count_effects is_list_next (effects r) = length ps ∧
  existsb is_raised (effects r) = false.
Proof.
  intros Hlist Hserves Hfuel r. subst r.
  erewrite fetch_inbox_emails_exhausted; eauto.
  unfold outcome, final_world, effects. simpl. repeat split.
  - rewrite <- executed_app, executed_page_effects. simpl. by rewrite app_nil_r.
  - rewrite !count_effects_cons, count_effects_app, list_next_page_effects. cbn. lia.
  - by rewrite existsb_app, raised_page_effects.
Qed.

Lemma fetch_inbox_emails_outcome fuel w :
  (∃ ids, outcome (fetch_inbox_emails env fuel service w) = Val ids) ∨
  outcome (fetch_inbox_emails env fuel service w) = OutOfFuel.
Proof.
  destruct (fetch_inbox_emails_cases fuel w)
    as [(e' & w0 & _ & t & ->)|(request & w0 & _ & Hcases)]; [left; by eexists|].
  simpl in Hcases.
  destruct (outcome (fetch_loop env fuel service (Some request) [] w0)) as [ids|e'|].
  - rewrite Hcases. left. by eexists.
  - destruct Hcases as [msg ->]. left. by eexists.
  - rewrite Hcases. by right.
Qed.

(** X2: the listing absorbs every exception of class [Exception] that
    arises in it, be it raised by [list], by [execute], by [list_next] or by
    the lookup of ['id'] in an entry: it returns a list, unless the loop is
    still running when the fuel ends.  (Exceptions outside [Exception], such
    as [KeyboardInterrupt], are not in the model; the script does not catch
    them.) *)
Theorem listing_absorbs_exceptions fuel w :
  let r := fetch_inbox_emails env fuel service w in
  (∃ ids, outcome r = Val ids) ∨ outcome r = OutOfFuel.
Proof. apply fetch_inbox_emails_outcome. Qed.

(** X3: an entry without an ['id'] on any page makes the whole listing
    return the empty list: the [KeyError] is caught as an unexpected error,
    the identifiers of the earlier pages are dropped and no continuation is
    requested for that page. *)
Theorem listing_entry_without_id w w0 request0 ps w1 request response msgs w2 fuel :
  messages_list env service "me" ["INBOX"] w = (Ok request0, w0) →
  serves env service w0 request0 ps w1 (Some request) →
  execute env request w1 = (Ok response, w2) →
  messages response = Some msgs →
  Exists (λ msg : Message, msg !! "id" = None) msgs →
  (length ps < fuel)%nat →
  let r := fetch_inbox_emails env fuel service w in
  outcome r = Val [] ∧
  final_world r = w2 ∧
  executed (effects r) = (page_request <$> ps) ++ [request] ∧
  count_effects is_list_next (effects r) = length ps ∧
  last (effects r) = Some (ELog ERROR (UnexpectedErrorFetching (KeyError "id"))).
Proof.
  intros Hlist Hserves Hex Hmsgs Hmissing Hfuel r. subst r.
  destruct (Nat.le_exists_sub (S (length ps)) fuel) as [k [-> _]]; [lia|].
  replace (k + S (length ps))%nat with (length ps + S k)%nat by lia.
  assert (fetch_loop env (length ps + S k) service (Some request0) [] w0 =
          (Raise (KeyError "id"), w2,
           (ps ≫= page_effects service) ++ [ECall (CExecute request) None])) as Hloop.
  { rewrite (fetch_loop_serves _ _ _ _ _ _ _ Hserves). simpl.
    erewrite run_bind_val; [|by apply run_call_ok].
    rewrite Hmsgs. simpl. destruct msgs as [|m ms]; [by inversion Hmissing|].
    erewrite run_bind_raise; [|by apply mapM_getitem_missing]. done. }
  destruct (fetch_inbox_emails_cases (length ps + S k) w)
    as [(e' & w0' & Hlist' & _)|(request' & w0' & Hlist' & Hcases)]; [congruence|].
  assert (request' = request0 ∧ w0' = w0) as [-> ->] by (split; congruence).
  simpl in Hcases. rewrite Hloop in Hcases. unfold outcome, final_world, effects in Hcases.
  simpl in Hcases. destruct Hcases as [msg Hrun].
  assert (msg = UnexpectedErrorFetching (KeyError "id")) as ->.
  { revert Hrun. unfold fetch_inbox_emails. rewrite run_log_bind.
    erewrite run_try_raise.
    2:{ erewrite run_bind_val; [|by apply run_call_ok].
        erewrite run_bind_raise; [|exact Hloop]. simpl. reflexivity. }
    simpl. intros [= Heq]. apply app_inj_tail in Heq as [_ Heq]. congruence. }
  rewrite Hrun. unfold outcome, final_world, effects. simpl. repeat split.
  - rewrite <- !executed_app, executed_page_effects. cbn. by rewrite app_nil_r.
  - rewrite !count_effects_cons, !count_effects_app, list_next_page_effects. cbn. lia.
  - rewrite !app_comm_cons, last_snoc. done.
Qed.

Lemma fetch_inbox_emails_listing fuel w :
  forallb is_listing_effect (effects (fetch_inbox_emails env fuel service w)) = true.
Proof.
  pose proof (fetch_loop_listing fuel) as Hloop.
  destruct (fetch_inbox_emails_cases fuel w)
    as [(e' & w0 & Hlist & t & Hrun)|(request & w0 & _ & Hcases)].
  - revert Hrun. unfold fetch_inbox_emails. rewrite run_log_bind.
    erewrite run_try_raise; [|erewrite run_bind_raise; [done|by apply run_call_err]].
    intros _. by destruct e'.
  - simpl in Hcases. specialize (Hloop (Some request) [] w0).
    destruct (outcome (fetch_loop env fuel service (Some request) [] w0)) as [ids|e'|].
    + rewrite Hcases. unfold effects at 1. simpl. by rewrite forallb_app, Hloop.
    + destruct Hcases as [msg ->]. unfold effects at 1. simpl. by rewrite forallb_app, Hloop.
    + rewrite Hcases. unfold effects at 1. simpl. done.
Qed.

Lemma listing_effects_modify_nothing (t : list (Effect Request Service Flow)) :
  forallb is_listing_effect t = true → modified t = [] ∧ modify_calls t = [].
Proof.
  induction t as [|ef t IH]; [done|].
  simpl. intros [Hef Ht]%andb_prop. destruct (IH Ht) as [IHm IHc].
  destruct ef as [[] ?|]; try done; by split.
Qed.

(** X4: the listing is read-only and scoped: besides logging it only
    creates the [list] request for the ['INBOX'] label of user ['me'],
    executes page requests and asks for continuations; in particular it
    never calls [modify]. *)
Theorem listing_is_read_only fuel w :
  let r := fetch_inbox_emails env fuel service w in
  forallb is_listing_effect (effects r) = true ∧ modified (effects r) = [].
Proof.
  intros r. subst r. split; [apply fetch_inbox_emails_listing|].
  apply listing_effects_modify_nothing, fetch_inbox_emails_listing.
Qed.

(** X5: on a mailbox whose first page has no messages the listing returns
    the empty list after exactly one page request, without asking for a
    continuation. *)
Theorem listing_empty_mailbox w w0 request0 response w1 fuel :
  messages_list env service "me" ["INBOX"] w = (Ok request0, w0) →
  execute env request0 w0 = (Ok response, w1) →
  messages response = None ∨ messages response = Some [] →
  (0 < fuel)%nat →
  let r := fetch_inbox_emails env fuel service w in
  outcome r = Val [] ∧
  final_world r = w1 ∧
  executed (effects r) = [request0] ∧
  count_effects is_list_next (effects r) = 0%nat.
Proof.
  intros Hlist Hex Hempty Hfuel r. subst r.
  assert (default [] (messages response) = []) as Hnone by (by destruct Hempty as [-> | ->]).
  rewrite (fetch_inbox_emails_empty_page env service w w0 request0 [] w0 request0 response w1
             fuel Hlist (serves_nil env service w0 request0) Hex Hnone Hfuel).
  done.
Qed.

End ListingMore.

(** A page of two and a page of one, with a repeated identifier. *)
Lemma listing_concatenates_pages_witness :
  let r := fetch_inbox_emails (Mock.env Mock.uneven_pages) 3 tt tt in
  outcome r = Val ["a"; "b"; "a"] ∧
  final_world r = tt ∧
  executed (effects r) = [Mock.PageRequest 0; Mock.PageRequest 1] ∧
  count_effects is_list_next (effects r) = 2%nat ∧
  existsb is_raised (effects r) = false.
Proof.
  apply (listing_concatenates_pages (Mock.env Mock.uneven_pages) tt tt tt (Mock.PageRequest 0)
           [mkPage (Mock.PageRequest 0)
              (mkResponse (Some [Mock.msg "a"; Mock.msg "b"]) (Some "t1")) ["a"; "b"]
              (Some (Mock.PageRequest 1));
            mkPage (Mock.PageRequest 1) (mkResponse (Some [Mock.msg "a"]) None) ["a"] None]
           tt 3).
  - reflexivity.
  - eapply serves_cons; [reflexivity|reflexivity|done|reflexivity|].
    eapply serves_last; [reflexivity|reflexivity|done|reflexivity].
  - simpl. lia.
Defined.

(** A first page with one message, a second whose entry has no identifier. *)
Lemma listing_entry_without_id_witness :
  let r := fetch_inbox_emails (Mock.env Mock.entry_without_id) 3 tt tt in
  outcome r = Val [] ∧
  final_world r = tt ∧
  executed (effects r) = [Mock.PageRequest 0; Mock.PageRequest 1] ∧
  count_effects is_list_next (effects r) = 1%nat ∧
  last (effects r) = Some (ELog ERROR (UnexpectedErrorFetching (KeyError "id"))).
Proof.
  apply (listing_entry_without_id (Mock.env Mock.entry_without_id) tt tt tt
           (Mock.PageRequest 0)
           [mkPage (Mock.PageRequest 0) (mkResponse (Some [Mock.msg "m1"]) (Some "t1")) ["m1"]
              (Some (Mock.PageRequest 1))]
           tt (Mock.PageRequest 1) (mkResponse (Some [{[ "threadId" := "t2" ]}]) None)
           [{[ "threadId" := "t2" ]}] tt 3).
  - reflexivity.
  - eapply serves_cons; [reflexivity|reflexivity|done|reflexivity|apply serves_nil].
  - reflexivity.
  - reflexivity.
  - apply Exists_cons_hd. reflexivity.
  - simpl. lia.
Defined.

(** A response without a ['messages'] key, as in
    [test_fetch_inbox_emails_no_messages_key]. *)
Lemma listing_empty_mailbox_witness :
  let r := fetch_inbox_emails (Mock.env Mock.empty_mailbox) 1 tt tt in
  outcome r = Val [] ∧
  final_world r = tt ∧
  executed (effects r) = [Mock.PageRequest 0] ∧
  count_effects is_list_next (effects r) = 0%nat.
Proof.
  apply (listing_empty_mailbox (Mock.env Mock.empty_mailbox) tt tt tt (Mock.PageRequest 0)
           (mkResponse None None) tt 1).
  - reflexivity.
  - reflexivity.
  - by left.
  - lia.
Defined.

(** ** More on the archiving *)

Section ArchivingMore.
Context {World Request Service Flow : Type}.
Variable env : Environment World Request Service Flow.
Variable service : Service.
Abbreviation M := (@M World Request Service Flow).

Lemma modify_calls_app (t1 t2 : list (Effect Request Service Flow)) :
  modify_calls (t1 ++ t2) = modify_calls t1 ++ modify_calls t2.
Proof. unfold modify_calls, calls. by rewrite omap_app, List.filter_app. Qed.

Lemma archived_ids_app (t1 t2 : list (Effect Request Service Flow)) :
  archived_ids (t1 ++ t2) = archived_ids t1 ++ archived_ids t2.
Proof. unfold archived_ids. by rewrite omap_app. Qed.

Lemma failed_ids_app (t1 t2 : list (Effect Request Service Flow)) :
  failed_ids (t1 ++ t2) = failed_ids t1 ++ failed_ids t2.
Proof. unfold failed_ids. by rewrite omap_app. Qed.

(** What the loop leaves in the effect stream: the [modify] calls with their
    arguments, and one log record per identifier, filed by outcome. *)
Lemma archive_loop_trace message_ids : ∀ total i archived_count w,
  ∃ a w' t,
    archive_loop env service total i message_ids archived_count w = (Val a, w', t) ∧
    modify_calls t =
      (λ id, CMessagesModify service "me" id {[ "removeLabelIds" := ["INBOX"] ]}) <$> message_ids ∧
    archived_ids t =
      ids_with_outcome true message_ids (mutation_outcomes env service message_ids w) ∧
    failed_ids t =
      ids_with_outcome false message_ids (mutation_outcomes env service message_ids w).
Proof.
  induction message_ids as [|message_id rest IH]; intros total i archived_count w.
  - by exists archived_count, w, [].
  - simpl. unfold mutate.
    destruct (messages_modify env service "me" message_id _ w) as [[request|e] w1] eqn:Hmod.
    + destruct (execute env request w1) as [[response|e] w2] eqn:Hex.
      * destruct (IH total (S i) (archived_count + 1)%Z w2) as (a & w' & t & Hrun & Hm & Ha & Hf).
        eexists a, w', _. split.
        { erewrite run_bind_val.
          2:{ erewrite run_try_val; [done|].
              erewrite run_bind_val; [|by apply run_call_ok].
              erewrite run_bind_val; [|by apply run_call_ok].
              rewrite run_log_bind. simpl. reflexivity. }
          rewrite Hrun. simpl. reflexivity. }
        unfold modify_calls, calls, archived_ids, failed_ids in *. cbn.
        by rewrite Hm, Ha, Hf.
      * destruct (IH total (S i) archived_count w2) as (a & w' & t & Hrun & Hm & Ha & Hf).
        eexists a, w', _. split.
        { erewrite run_bind_val.
          2:{ erewrite run_try_raise.
              2:{ erewrite run_bind_val; [|by apply run_call_ok].
                  erewrite run_bind_raise; [done|by apply run_call_err]. }
              assert (∀ w0, (match e with
                       | HttpError _ _ => log ERROR (ApiErrorArchiving message_id e)
                       | _ => log ERROR (UnexpectedErrorArchiving message_id e)
                       end ≫= (λ _, mret archived_count) : M Z) w0 =
                      (Val archived_count, w0,
                       [ELog ERROR (match e with
                                    | HttpError _ _ => ApiErrorArchiving message_id e
                                    | _ => UnexpectedErrorArchiving message_id e end)])) as ->
                by (intros; by destruct e).
              simpl. reflexivity. }
          rewrite Hrun. reflexivity. }
        unfold modify_calls, calls, archived_ids, failed_ids in *.
        destruct e; cbn; by rewrite Hm, Ha, Hf.
    + destruct (IH total (S i) archived_count w1) as (a & w' & t & Hrun & Hm & Ha & Hf).
      eexists a, w', _. split.
      { erewrite run_bind_val.
        2:{ erewrite run_try_raise.
            2:{ erewrite run_bind_raise; [done|by apply run_call_err]. }
            assert (∀ w0, (match e with
                     | HttpError _ _ => log ERROR (ApiErrorArchiving message_id e)
                     | _ => log ERROR (UnexpectedErrorArchiving message_id e)
                     end ≫= (λ _, mret archived_count) : M Z) w0 =
                    (Val archived_count, w0,
                     [ELog ERROR (match e with
                                  | HttpError _ _ => ApiErrorArchiving message_id e
                                  | _ => UnexpectedErrorArchiving message_id e end)])) as ->
              by (intros; by destruct e).
            simpl. reflexivity. }
        rewrite Hrun. reflexivity. }
      unfold modify_calls, calls, archived_ids, failed_ids in *.
      destruct e; cbn; by rewrite Hm, Ha, Hf.
Qed.

Lemma archive_emails_trace message_ids w :
  let t := effects (archive_emails env service message_ids w) in
  modify_calls t =
    (λ id, CMessagesModify service "me" id {[ "removeLabelIds" := ["INBOX"] ]}) <$> message_ids ∧
  archived_ids t =
    ids_with_outcome true message_ids (mutation_outcomes env service message_ids w) ∧
  failed_ids t =
    ids_with_outcome false message_ids (mutation_outcomes env service message_ids w).
Proof.
  destruct message_ids as [|message_id rest]; [done|].
  destruct (archive_loop_trace (message_id :: rest) (length (message_id :: rest)) 0%nat 0%Z w)
    as (a & w' & t & Hrun & Hm & Ha & Hf).
  remember (mutation_outcomes env service (message_id :: rest) w) as outcomes.
  unfold archive_emails. lazy beta iota zeta. rewrite run_log_bind.
  erewrite run_bind_val; [|exact Hrun]. rewrite run_log_bind, run_ret.
  unfold prepend, effects. cbn [snd].
  change (ELog INFO (StartingToArchive (length (message_id :: rest))) :: ?l)
    with ([ELog (Request:=Request) (Service:=Service) (Flow:=Flow) INFO
             (StartingToArchive (length (message_id :: rest)))] ++ l).
  rewrite !modify_calls_app, !archived_ids_app, !failed_ids_app, Hm, Ha, Hf.
  cbn. by rewrite !app_nil_r.
Qed.

(** X6: whatever fails, the archiving calls [modify] exactly once per
    identifier of its input, in input order and repeated identifiers
    included, always for user ['me'] and with the body
    [{'removeLabelIds': ['INBOX']}]: the only change it ever asks for is the
    removal of the inbox label. *)
Theorem archive_modifies_each_id_once message_ids w :
  modify_calls (effects (archive_emails env service message_ids w)) =
    (λ id, CMessagesModify service "me" id {[ "removeLabelIds" := ["INBOX"] ]}) <$> message_ids.
Proof. apply archive_emails_trace. Qed.

(** X7: the archiving returns the length of its input exactly when none of
    its calls raised. *)
Theorem archive_all_iff_no_failure message_ids w :
  let r := archive_emails env service message_ids w in
  outcome r = Val (Z.of_nat (length message_ids)) ↔ count_effects is_raised (effects r) = 0%nat.
Proof.
  intros r. subst r.
  destruct (archive_emails_run env service message_ids w) as (w' & t & Hrun & _ & _ & Hraised).
  rewrite Hrun. unfold outcome, effects. simpl. split.
  - intros [= Heq]. lia.
  - intros Hnone. f_equal. lia.
Qed.

(** X8: the log of the archiving files every identifier by outcome: the
    identifiers logged as archived are those whose mutation completed, the
    identifiers logged with an error are those whose mutation raised, each
    in input order. *)
Theorem archive_log_files_ids_by_outcome message_ids w :
  let r := archive_emails env service message_ids w in
  let outcomes := mutation_outcomes env service message_ids w in
  archived_ids (effects r) = ids_with_outcome true message_ids outcomes ∧
  failed_ids (effects r) = ids_with_outcome false message_ids outcomes.
Proof. intros r outcomes. apply archive_emails_trace. Qed.

End ArchivingMore.

(** ** More on the credential operation *)

Section CredentialDiscipline.
Context {World Request Service Flow : Type}.
Variable env : Environment World Request Service Flow.
Abbreviation M := (@M World Request Service Flow).

Ltac unfold_run :=
  unfold authenticate_gmail, obtain_credentials, load_token, validate_or_refresh,
    new_oauth_flow, save_token, build_service,
    mbind, M_bind, bind, mret, M_ret, ret, try_except, call, call_total, log, prepend.

(** What everything before the final check does to credentials, files and
    the mailbox. *)
Lemma obtain_credentials_discipline w :
  let obtained := obtain_credentials env w in
  let t := effects obtained in
  Forall (λ c, valid c = false ∧ expired c = true ∧ truthy (refresh_token c) = true)
    (refreshed_credentials t) ∧
  (length (refreshed_credentials t) ≤ 1)%nat ∧
  (file_writes t = [] ∨
   ∃ creds, outcome obtained = Val (inr (Some creds)) ∧
            file_writes t = [(TOKEN_FILE, to_json env creds)] ∧
            existsb is_completed_renewal t = true) ∧
  built_with t = [] ∧
  forallb is_credential_effect t = true.
Proof.
  unfold_run. repeat (case_match; simplify_eq/=); simpl;
    repeat match goal with H : _ && _ = true |- _ => apply andb_prop in H as [? ?] end;
    (split; [repeat constructor; done|]); (split; [lia|]);
    (split; [first [by left | right; eexists; by repeat split]|]); done.
Qed.


End CredentialDiscipline.

Section CredentialMore.
Context {World Request Service Flow : Type}.
Variable env : Environment World Request Service Flow.
Abbreviation M := (@M World Request Service Flow).

Ltac unfold_run :=
  unfold authenticate_gmail, obtain_credentials, load_token, validate_or_refresh,
    new_oauth_flow, save_token, build_service,
    mbind, M_bind, bind, mret, M_ret, ret, try_except, call, call_total, log, prepend.

Lemma build_service_effects creds w :
  let t := effects (build_service env creds w) in
  refreshed_credentials t = [] ∧
  file_writes t = [] ∧
  built_with t = match creds with
                 | Some c => if valid c then [c] else []
                 | None => []
                 end ∧
  forallb is_credential_effect t = true.
Proof. unfold_run. repeat (case_match; simplify_eq/=); done. Qed.

(** The effects of the credential operation are those of everything before
    the final check, followed by those of the final check and [build]. *)
Lemma authenticate_gmail_effects w :
  ∃ v w1 t1 t2,
    obtain_credentials env w = (Val v, w1, t1) ∧
    effects (authenticate_gmail env w) = t1 ++ t2 ∧
    (match v with
     | inl _ => t2 = []
     | inr creds => t2 = effects (build_service env creds w1)
     end).
Proof.
  destruct (authenticate_gmail_run env w) as (v & w1 & t1 & v' & w2 & t2 & Hobt & Hfin & Hrun).
  exists v, w1, t1, t2. rewrite Hrun. repeat split; [done|].
  destruct v as [returned|creds]; [unfold ret in Hfin; by simplify_eq|by rewrite Hfin].
Qed.

(** X9: a stored credential that is valid as loaded is used as it is: it
    is not refreshed, the grant flow is neither constructed nor run, nothing
    is written to the token store, and the service is built from it. *)
Theorem valid_token_used_as_is w w1 creds w2 :
  os_path_exists env TOKEN_FILE w = (true, w1) →
  from_authorized_user_file env TOKEN_FILE SCOPES w1 = (Ok creds, w2) →
  valid creds = true →
  let r := authenticate_gmail env w in
  refreshed_credentials (effects r) = [] ∧
  count_effects is_grant_call (effects r) = 0%nat ∧
  file_writes (effects r) = [] ∧
  built_with (effects r) = [creds] ∧
  (∀ service w3, build env "gmail" "v1" creds w2 = (Ok service, w3) →
     outcome r = Val (Some service) ∧ final_world r = w3).
Proof.
  intros Hexists Hload Hvalid r. subst r.
  unfold_run. rewrite Hexists. simpl. rewrite Hload. simpl. rewrite !Hvalid. simpl.
  destruct (build env "gmail" "v1" creds w2) as [[service|e] w3] eqn:Hbuild; simpl.
  - do 4 (split; [done|]). by intros ? ? [= <- <-].
  - destruct e; do 4 (split; [done|]); done.
Qed.

(** X10: after a successful refresh the refreshed credential is written to
    the token store, exactly once and before anything is built, and it is the
    credential the final check looks at: the service is built from it when
    its validity flag is set, whether or not the write succeeded, and the
    operation returns [None] when the refresh left it invalid. *)
Theorem refreshed_credential_is_persisted w w1 creds w2 refreshed w3 :
  os_path_exists env TOKEN_FILE w = (true, w1) →
  from_authorized_user_file env TOKEN_FILE SCOPES w1 = (Ok creds, w2) →
  valid creds = false → expired creds = true → truthy (refresh_token creds) = true →
  refresh env creds w2 = (Ok refreshed, w3) →
  let r := authenticate_gmail env w in
  let w4 := (open_write env TOKEN_FILE (to_json env refreshed) w3).2 in
  refreshed_credentials (effects r) = [creds] ∧
  file_writes (effects r) = [(TOKEN_FILE, to_json env refreshed)] ∧
  built_with (effects r) = (if valid refreshed then [refreshed] else []) ∧
  (valid refreshed = false → outcome r = Val None) ∧
  (valid refreshed = true → ∀ service w5,
     build env "gmail" "v1" refreshed w4 = (Ok service, w5) →
     outcome r = Val (Some service) ∧ final_world r = w5).
Proof.
  intros Hexists Hload Hvalid Hexpired Htoken Hrefresh r w4. subst r w4.
  unfold_run. rewrite Hexists. simpl. rewrite Hload. simpl.
  rewrite Hvalid, Hexpired, Htoken. simpl. rewrite Hrefresh. simpl.
  destruct (open_write env TOKEN_FILE (to_json env refreshed) w3) as [[[]|e] w4]; simpl;
    destruct (valid refreshed); simpl;
    try (destruct (build env "gmail" "v1" refreshed w4) as [[service|e'] w5] eqn:Hbuild;
         simpl; try destruct e');
    do 3 (split; [done|]); (split; [done|]); intros Hv; try done;
    intros ? ? ?; by simplify_eq.
Qed.


(** X11: on a first run (no token store, client-secret file present) a
    granted credential with its validity flag set is written to the token
    store once and the service is built from it; a failure to write the
    token store does not change that. *)
Theorem first_run_grants_and_persists w w1 w2 flow w3 granted w4 written w5 service w6 :
  os_path_exists env TOKEN_FILE w = (false, w1) →
  os_path_exists env CLIENT_SECRETS_FILE w1 = (true, w2) →
  from_client_secrets_file env CLIENT_SECRETS_FILE SCOPES w2 = (Ok flow, w3) →
  run_local_server env flow 0 w3 = (Ok (Some granted), w4) →
  open_write env TOKEN_FILE (to_json env granted) w4 = (written, w5) →
  valid granted = true →
  build env "gmail" "v1" granted w5 = (Ok service, w6) →
  let r := authenticate_gmail env w in
  outcome r = Val (Some service) ∧
  final_world r = w6 ∧
  flow_launches (effects r) = 1%nat ∧
  file_writes (effects r) = [(TOKEN_FILE, to_json env granted)] ∧
  built_with (effects r) = [granted].
Proof.
  intros Htoken Hsecrets Hflow Hgrant Hwrite Hvalid Hbuild r. subst r.
  unfold flow_launches.
  unfold_run. rewrite Htoken. simpl. rewrite Hsecrets. simpl. rewrite Hflow. simpl.
  rewrite Hgrant. simpl. rewrite Hwrite.
  destruct written as [[]|e]; simpl; rewrite Hvalid, Hbuild; done.
Qed.

(** X12: once no usable credential is held, a grant that does not deliver
    is final: when the client-secret file cannot be loaded, or the flow
    raises, or it returns nothing, the operation returns [None] (there is
    no retry), writes nothing and builds nothing. *)
Theorem failed_grant_is_terminal w dirty w1 t1 w2 :
  (load_token env None ≫= λ creds, validate_or_refresh env creds false) w
    = (Val (None, dirty), w1, t1) →
  os_path_exists env CLIENT_SECRETS_FILE w1 = (true, w2) →
  (∃ e w3, from_client_secrets_file env CLIENT_SECRETS_FILE SCOPES w2 = (Err e, w3)) ∨
  (∃ flow w3 launched w4,
     from_client_secrets_file env CLIENT_SECRETS_FILE SCOPES w2 = (Ok flow, w3) ∧
     run_local_server env flow 0 w3 = (launched, w4) ∧
     ∀ granted, launched ≠ Ok (Some granted)) →
  let r := authenticate_gmail env w in
  outcome r = Val None ∧
  (flow_launches (effects r) ≤ 1)%nat ∧
  file_writes (effects r) = [] ∧
  built_with (effects r) = [].
Proof.
  intros Hstate Hsecrets Hgrant r.
  assert (∃ v w3 t2,
            new_oauth_flow env None dirty w1 = (Val v, w3, t2) ∧
            (v = inl None ∨ v = inr (None, dirty)) ∧
            (flow_launches t2 ≤ 1)%nat ∧ file_writes t2 = [] ∧ built_with t2 = [])
    as (v & w3 & t2 & Hflow & Hv & Hf2 & Hw2 & Hb2).
  { unfold new_oauth_flow, flow_launches,
      mbind, M_bind, bind, mret, M_ret, ret, try_except, call, call_total, log, prepend.
    rewrite Hsecrets. simpl.
    destruct Hgrant as [(e & w3 & ->)|(flow & w3 & launched & w4 & -> & Hrun & Hnone)]; simpl.
    - destruct e; eexists _, _, _; (split; [reflexivity|]); (split; [by left|]); cbn;
        repeat split; lia.
    - rewrite Hrun. destruct launched as [[granted|]|e]; simpl.
      + by destruct (Hnone granted).
      + eexists _, _, _; (split; [reflexivity|]); (split; [by right|]); cbn; repeat split; lia.
      + destruct e; eexists _, _, _; (split; [reflexivity|]); (split; [by left|]); cbn;
          repeat split; lia. }
  assert (file_writes t1 = [] ∧ built_with t1 = [] ∧ (flow_launches t1 = 0)%nat)
    as (Hw1 & Hb1 & Hf1).
  { clear Hflow Hsecrets Hgrant. revert Hstate.
    unfold load_token, validate_or_refresh, flow_launches,
      mbind, M_bind, bind, mret, M_ret, ret, try_except, call, call_total, log, prepend.
    intros Hstate. repeat (case_match; simplify_eq/=); done. }
  assert (∃ t3, authenticate_gmail env w = (Val None, w3, t1 ++ t2 ++ t3) ∧
                (flow_launches t3 = 0)%nat ∧ file_writes t3 = [] ∧ built_with t3 = [])
    as (t3 & Hr & Hf3 & Hw3 & Hb3).
  { unfold authenticate_gmail. destruct Hv as [-> | ->].
    - exists []. split; [|done]. erewrite run_bind_val.
      2:{ unfold obtain_credentials.
          rewrite <- bind_assoc. erewrite run_bind_val; [|exact Hstate]. lazy beta iota zeta.
          erewrite run_bind_val; [|exact Hflow]. simpl. reflexivity. }
      simpl. by rewrite !app_nil_r.
    - exists [ELog ERROR FailedToObtainValidCredentials]. split; [|done]. erewrite run_bind_val.
      2:{ unfold obtain_credentials.
          rewrite <- bind_assoc. erewrite run_bind_val; [|exact Hstate]. lazy beta iota zeta.
          erewrite run_bind_val; [|exact Hflow]. simpl. reflexivity. }
      simpl. by rewrite !app_nil_r, <- !app_assoc. }
  subst r. rewrite Hr. unfold outcome, effects. simpl. split; [done|].
  unfold file_writes, built_with, flow_launches in *.
  rewrite !count_effects_app, !omap_app, Hw1, Hb1, Hf1, Hw2, Hb2, Hw3, Hb3, Hf3.
  repeat split; simpl; lia.
Qed.

(** X13: a refresh is attempted at most once per run, and only on a
    credential that is not valid, is expired and carries a refresh token. *)
Theorem refresh_only_when_expired_with_token w :
  let t := effects (authenticate_gmail env w) in
  (length (refreshed_credentials t) ≤ 1)%nat ∧
  Forall (λ c, valid c = false ∧ expired c = true ∧ truthy (refresh_token c) = true)
    (refreshed_credentials t).
Proof.
  intros t. subst t.
  destruct (authenticate_gmail_effects w) as (v & w1 & t1 & t2 & Hobt & -> & Ht2).
  destruct (obtain_credentials_discipline env w) as (Hall & Hlen & _).
  rewrite Hobt in Hall, Hlen. unfold effects in Hall, Hlen. simpl in Hall, Hlen.
  assert (refreshed_credentials t2 = []) as Hnone.
  { destruct v as [returned|creds]; [by subst|].
    subst t2. apply (build_service_effects creds w1). }
  unfold refreshed_credentials in *. rewrite omap_app, Hnone, app_nil_r. done.
Qed.

(** X14: the only file the credential operation ever writes is the token
    store, at most once per run, only after a refresh or a grant completed,
    and what it writes is the serialisation of the credential that the final
    check then examines. *)
Theorem token_store_write_discipline w :
  let r := authenticate_gmail env w in
  file_writes (effects r) = [] ∨
  ∃ creds, outcome (obtain_credentials env w) = Val (inr (Some creds)) ∧
           file_writes (effects r) = [(TOKEN_FILE, to_json env creds)] ∧
           existsb is_completed_renewal (effects r) = true.
Proof.
  intros r. subst r.
  destruct (authenticate_gmail_effects w) as (v & w1 & t1 & t2 & Hobt & -> & Ht2).
  destruct (obtain_credentials_discipline env w) as (_ & _ & Hwrites & _).
  rewrite Hobt in Hwrites |- *. unfold effects, outcome in Hwrites |- *. simpl in Hwrites |- *.
  assert (file_writes t2 = []) as Hnone.
  { destruct v as [returned|creds]; [by subst|].
    subst t2. apply (build_service_effects creds w1). }
  unfold file_writes in *. rewrite omap_app, Hnone, app_nil_r, existsb_app.
  destruct Hwrites as [Hw|(creds & Hv & Hw & Hrenewed)]; [by left|].
  right. exists creds. by rewrite Hrenewed.
Qed.

(** X15: a token store that cannot be read, or that holds a credential
    which is not valid and cannot be refreshed (not expired, or without a
    refresh token), is treated as absent: no refresh is attempted and the
    operation goes on to look for the client-secret file. *)
Theorem unusable_token_is_absence w w1 w2 :
  os_path_exists env TOKEN_FILE w = (true, w1) →
  (∃ e, from_authorized_user_file env TOKEN_FILE SCOPES w1 = (Err e, w2)) ∨
  (∃ creds, from_authorized_user_file env TOKEN_FILE SCOPES w1 = (Ok creds, w2) ∧
            valid creds = false ∧
            (expired creds = false ∨ truthy (refresh_token creds) = false)) →
  let r := authenticate_gmail env w in
  refreshed_credentials (effects r) = [] ∧
  COsPathExists CLIENT_SECRETS_FILE ∈ calls (effects r).
Proof.
  intros Hexists Hunusable r. subst r.
  assert (expired_and_token : ∀ creds,
            expired creds = false ∨ truthy (refresh_token creds) = false →
            expired creds && truthy (refresh_token creds) = false).
  { intros creds [-> | ->]; [done|by rewrite andb_false_r]. }
  split.
  - unfold_run. rewrite Hexists. simpl.
    destruct Hunusable as [(e & ->)|(creds & -> & Hvalid & Hcannot)]; simpl.
    + repeat (case_match; simplify_eq/=); done.
    + rewrite Hvalid, (expired_and_token _ Hcannot). simpl.
      repeat (case_match; simplify_eq/=); done.
  - unfold_run. rewrite Hexists. simpl.
    destruct Hunusable as [(e & ->)|(creds & -> & Hvalid & Hcannot)]; simpl.
    + repeat (case_match; simplify_eq/=); apply list_elem_of_In; cbn; auto 10.
    + rewrite Hvalid, (expired_and_token _ Hcannot). simpl.
      repeat (case_match; simplify_eq/=); apply list_elem_of_In; cbn; auto 10.
Qed.

Lemma authenticate_gmail_credential_effects w :
  forallb is_credential_effect (effects (authenticate_gmail env w)) = true.
Proof.
  destruct (authenticate_gmail_effects w) as (v & w1 & t1 & t2 & Hobt & -> & Ht2).
  destruct (obtain_credentials_discipline env w) as (_ & _ & _ & _ & Hcred).
  rewrite Hobt in Hcred. unfold effects in Hcred. simpl in Hcred.
  assert (forallb is_credential_effect t2 = true) as Hcred2.
  { destruct v as [returned|creds]; [by subst|].
    subst t2. apply (build_service_effects creds w1). }
  by rewrite forallb_app, Hcred, Hcred2.
Qed.

Lemma credential_effects_off_mailbox (t : list (Effect Request Service Flow)) :
  forallb is_credential_effect t = true →
  executed t = [] ∧ modified t = [] ∧ modify_calls t = [].
Proof.
  induction t as [|ef t IH]; [done|].
  simpl. intros [Hef Ht]%andb_prop. destruct (IH Ht) as (IHe & IHm & IHc).
  destruct ef as [[] ?|]; try done; by repeat split.
Qed.

(** X16: the credential operation never touches the mailbox: besides
    logging it only calls the file system, the OAuth library and [build]. *)
Theorem credential_operation_leaves_mailbox_alone w :
  let t := effects (authenticate_gmail env w) in
  forallb is_credential_effect t = true ∧ executed t = [] ∧ modified t = [].
Proof.
  intros t. subst t.
  pose proof (authenticate_gmail_credential_effects w) as Hcred.
  destruct (credential_effects_off_mailbox _ Hcred) as (He & Hm & _). done.
Qed.

End CredentialMore.

(** ** The whole run *)

Section MainMore.
Context {World Request Service Flow : Type}.
Variable env : Environment World Request Service Flow.
Abbreviation M := (@M World Request Service Flow).

Lemma modify_calls_log level msg (t : list (Effect Request Service Flow)) :
  modify_calls (ELog level msg :: t) = modify_calls t.
Proof. done. Qed.

(** The three ways a run goes, by what the credential operation and the
    listing return. *)
Lemma main_without_service_run fuel w w1 t1 :
  authenticate_gmail env w = (Val None, w1, t1) →
  main env fuel w =
    (Val tt, w1, ELog INFO ScriptStarted :: t1 ++ [ELog ERROR CouldNotAuthenticate]).
Proof.
  intros Hauth. unfold main. rewrite run_log_bind.
  erewrite run_bind_val; [|exact Hauth]. done.
Qed.

Lemma main_nothing_listed_run fuel w service w1 t1 w2 t2 :
  authenticate_gmail env w = (Val (Some service), w1, t1) →
  fetch_inbox_emails env fuel service w1 = (Val [], w2, t2) →
  main env fuel w =
    (Val tt, w2, ELog INFO ScriptStarted :: t1 ++ t2 ++ [ELog INFO NoEmailsFoundOrError]).
Proof.
  intros Hauth Hfetch. unfold main. rewrite run_log_bind.
  erewrite run_bind_val; [|exact Hauth]. lazy beta iota.
  erewrite run_bind_val; [|exact Hfetch]. done.
Qed.

Lemma main_archiving_run fuel w service w1 t1 ids w2 t2 :
  authenticate_gmail env w = (Val (Some service), w1, t1) →
  fetch_inbox_emails env fuel service w1 = (Val ids, w2, t2) →
  ids ≠ [] →
  main env fuel w =
    (Val tt, final_world (archive_emails env service ids w2),
     ELog INFO ScriptStarted :: t1 ++ t2 ++
     effects (archive_emails env service ids w2) ++ [ELog INFO ScriptFinished]).
Proof.
  intros Hauth Hfetch Hids. unfold main. rewrite run_log_bind.
  erewrite run_bind_val; [|exact Hauth]. lazy beta iota.
  erewrite run_bind_val; [|exact Hfetch].
  destruct ids as [|id ids]; [done|]. lazy beta iota.
  destruct (archive_emails_run env service (id :: ids) w2) as (w3 & t3 & Hrun & _).
  erewrite run_bind_val; [|exact Hrun]. rewrite Hrun, run_log_bind, run_ret.
  unfold final_world, effects. simpl. done.
Qed.

(** X17: a run of the program absorbs every exception of class [Exception]
    that a collaborator raises: each is caught inside the credential
    operation, the listing or the archiving, where it occurs, and the run
    returns normally, unless the listing loop is still running when the fuel
    ends.  (Exceptions outside [Exception], such as [KeyboardInterrupt], are
    not in the model; [main] has no handler of its own and they end the
    run.) *)
Theorem main_absorbs_exceptions fuel w :
  let r := main env fuel w in
  outcome r = Val tt ∨ outcome r = OutOfFuel.
Proof.
  intros r. subst r.
  destruct (authenticate_gmail_run env w) as (v & w0 & t0 & [service|] & w1 & t1 & _ & _ & Hauth).
  2:{ left. by rewrite (main_without_service_run fuel w _ _ Hauth). }
  pose proof (fetch_inbox_emails_outcome env service fuel w1) as Hfetch.
  destruct (fetch_inbox_emails env fuel service w1) as [[o w2] t2] eqn:Hrun.
  unfold outcome in Hfetch. simpl in Hfetch.
  destruct Hfetch as [[ids ->]| ->].
  - left. destruct ids as [|id ids].
    + by rewrite (main_nothing_listed_run fuel w _ _ _ _ _ Hauth Hrun).
    + by rewrite (main_archiving_run fuel w _ _ _ _ _ _ Hauth Hrun).
  - right. unfold main. rewrite run_log_bind.
    erewrite run_bind_val; [|exact Hauth]. lazy beta iota.
    erewrite run_bind_out_of_fuel; [|exact Hrun]. done.
Qed.

(** X18: when the credential operation yields no service the run stops
    there: it logs the failure and makes no call at all on the mailbox. *)
Theorem main_stops_without_service fuel w :
  outcome (authenticate_gmail env w) = Val None →
  let r := main env fuel w in
  outcome r = Val tt ∧
  effects r = ELog INFO ScriptStarted :: effects (authenticate_gmail env w) ++
              [ELog ERROR CouldNotAuthenticate] ∧
  executed (effects r) = [] ∧
  modified (effects r) = [].
Proof.
  intros Hnone r. subst r.
  pose proof (authenticate_gmail_credential_effects env w) as Hcred.
  destruct (authenticate_gmail env w) as [[o w1] t1] eqn:Hauth.
  unfold outcome in Hnone. simpl in Hnone. subst o.
  rewrite (main_without_service_run fuel w _ _ Hauth).
  unfold outcome, effects in *. cbn [fst snd] in *. split; [done|]. split; [done|].
  destruct (credential_effects_off_mailbox _ Hcred) as (He & Hm & _).
  change (ELog INFO ScriptStarted :: ?l)
    with ([ELog (Request:=Request) (Service:=Service) (Flow:=Flow) INFO ScriptStarted] ++ l).
  rewrite <- !executed_app, <- !modified_app, He, Hm. done.
Qed.

(** X19: when the listing returns the empty list, be it for an empty
    mailbox or for an error that the listing swallowed, the run stops
    without a single [modify] call. *)
Theorem main_stops_when_nothing_listed fuel w service w1 t1 :
  authenticate_gmail env w = (Val (Some service), w1, t1) →
  outcome (fetch_inbox_emails env fuel service w1) = Val [] →
  let r := main env fuel w in
  outcome r = Val tt ∧
  effects r = ELog INFO ScriptStarted :: t1 ++
              effects (fetch_inbox_emails env fuel service w1) ++
              [ELog INFO NoEmailsFoundOrError] ∧
  modify_calls (effects r) = [].
Proof.
  intros Hauth Hempty r. subst r.
  pose proof (authenticate_gmail_credential_effects env w) as Hcred.
  pose proof (fetch_inbox_emails_listing env service fuel w1) as Hlisting.
  destruct (fetch_inbox_emails env fuel service w1) as [[o w2] t2] eqn:Hfetch.
  unfold outcome in Hempty. simpl in Hempty. subst o.
  rewrite (main_nothing_listed_run fuel w _ _ _ _ _ Hauth Hfetch).
  rewrite Hauth in Hcred.
  unfold outcome, effects in *. cbn [fst snd] in *. split; [done|]. split; [done|].
  destruct (credential_effects_off_mailbox _ Hcred) as (_ & _ & Hc1).
  destruct (listing_effects_modify_nothing _ Hlisting) as (_ & Hc2).
  rewrite modify_calls_log, !modify_calls_app, Hc1, Hc2. done.
Qed.

(** X20: when the listing returns identifiers, the run archives exactly
    those: after the credential operation and the listing come the effects
    of the archiving of the listed identifiers, so that [modify] is called
    once for each listed identifier, in listing order, and for nothing
    else. *)
Theorem main_archives_what_was_listed fuel w service w1 t1 ids w2 t2 :
  authenticate_gmail env w = (Val (Some service), w1, t1) →
  fetch_inbox_emails env fuel service w1 = (Val ids, w2, t2) →
  ids ≠ [] →
  let r := main env fuel w in
  let archiving := archive_emails env service ids w2 in
  outcome r = Val tt ∧
  final_world r = final_world archiving ∧
  effects r = ELog INFO ScriptStarted :: t1 ++ t2 ++ effects archiving ++
              [ELog INFO ScriptFinished] ∧
  modify_calls (effects r) =
    (λ id, CMessagesModify service "me" id {[ "removeLabelIds" := ["INBOX"] ]}) <$> ids.
Proof.
  intros Hauth Hfetch Hids r archiving. subst r archiving.
  pose proof (authenticate_gmail_credential_effects env w) as Hcred.
  pose proof (fetch_inbox_emails_listing env service fuel w1) as Hlisting.
  rewrite Hauth in Hcred. rewrite Hfetch in Hlisting.
  rewrite (main_archiving_run fuel w _ _ _ _ _ _ Hauth Hfetch Hids).
  unfold outcome, final_world, effects in *. cbn [fst snd] in *. do 3 (split; [done|]).
  destruct (credential_effects_off_mailbox _ Hcred) as (_ & _ & Hc1).
  destruct (listing_effects_modify_nothing _ Hlisting) as (_ & Hc2).
  destruct (archive_emails_trace env service ids w2) as (Hc3 & _).
  unfold effects in Hc3. rewrite modify_calls_log, !modify_calls_app, Hc1, Hc2, Hc3.
  cbn. by rewrite app_nil_r.
Qed.

End MainMore.

(** ** The further properties at scripted environments *)

(** A stored credential that is valid, as in
    [test_authenticate_gmail_token_valid]. *)
Lemma valid_token_used_as_is_witness :
  let env := Mock.env Mock.stored_valid in
  let r := authenticate_gmail env tt in
  refreshed_credentials (effects r) = [] ∧
  count_effects is_grant_call (effects r) = 0%nat ∧
  file_writes (effects r) = [] ∧
  built_with (effects r) = [Mock.fresh_creds] ∧
  (∀ service w3, build env "gmail" "v1" Mock.fresh_creds tt = (Ok service, w3) →
     outcome r = Val (Some service) ∧ final_world r = w3).
Proof.
  apply (valid_token_used_as_is (Mock.env Mock.stored_valid) tt tt Mock.fresh_creds tt);
    reflexivity.
Defined.

(** A stored, expired credential whose refresh succeeds, as in
    [test_authenticate_gmail_token_expired_refresh_success]. *)
Lemma refreshed_credential_is_persisted_witness :
  let env := Mock.env Mock.refresh_succeeds in
  let r := authenticate_gmail env tt in
  refreshed_credentials (effects r) = [Mock.expired_creds] ∧
  file_writes (effects r) = [(TOKEN_FILE, to_json env Mock.refreshed_creds)] ∧
  built_with (effects r) = [Mock.refreshed_creds] ∧
  (valid Mock.refreshed_creds = false → outcome r = Val None) ∧
  (valid Mock.refreshed_creds = true → ∀ service w5,
     build env "gmail" "v1" Mock.refreshed_creds tt = (Ok service, w5) →
     outcome r = Val (Some service) ∧ final_world r = w5).
Proof.
  apply (refreshed_credential_is_persisted (Mock.env Mock.refresh_succeeds)
           tt tt Mock.expired_creds tt Mock.refreshed_creds tt); reflexivity.
Defined.

(** A first run on a disk that cannot be written. *)
Lemma first_run_grants_and_persists_witness :
  let env := Mock.env_unwritable Mock.first_run in
  let r := authenticate_gmail env tt in
  open_write env TOKEN_FILE (to_json env Mock.fresh_creds) tt
    = (Err (OtherException "read-only file system"), tt) ∧
  outcome r = Val (Some tt) ∧
  final_world r = tt ∧
  flow_launches (effects r) = 1%nat ∧
  file_writes (effects r) = [(TOKEN_FILE, to_json env Mock.fresh_creds)] ∧
  built_with (effects r) = [Mock.fresh_creds].
Proof.
  split; [reflexivity|].
  apply (first_run_grants_and_persists (Mock.env_unwritable Mock.first_run)
           tt tt tt tt tt Mock.fresh_creds tt (Err (OtherException "read-only file system"))
           tt tt tt); reflexivity.
Defined.

(** A first run in which the grant flow raises, as in
    [test_authenticate_gmail_flow_exception]. *)
Lemma failed_grant_is_terminal_witness :
  let r := authenticate_gmail (Mock.env Mock.grant_refused) tt in
  outcome r = Val None ∧
  (flow_launches (effects r) ≤ 1)%nat ∧
  file_writes (effects r) = [] ∧
  built_with (effects r) = [].
Proof.
  apply (failed_grant_is_terminal (Mock.env Mock.grant_refused) tt false tt
           [ECall (COsPathExists TOKEN_FILE) None] tt).
  - reflexivity.
  - reflexivity.
  - right. exists tt, tt, (Err (OtherException "Flow error")), tt.
    split; [reflexivity|]. split; [reflexivity|]. intros granted. discriminate.
Defined.

(** A stored credential that is expired and has no refresh token. *)
Lemma unusable_token_is_absence_witness :
  let r := authenticate_gmail (Mock.env Mock.stored_unrefreshable) tt in
  refreshed_credentials (effects r) = [] ∧
  COsPathExists CLIENT_SECRETS_FILE ∈ calls (effects r).
Proof.
  apply (unusable_token_is_absence (Mock.env Mock.stored_unrefreshable) tt tt tt).
  - reflexivity.
  - right. exists Mock.unrefreshable_creds.
    split; [reflexivity|]. split; [reflexivity|]. by right.
Defined.

(** Neither a token store nor a client-secret file, as in
    [test_main_flow_auth_fails]. *)
Lemma main_stops_without_service_witness :
  let env := Mock.env Mock.blank in
  let r := main env 5 tt in
  outcome r = Val tt ∧
  effects r = ELog INFO ScriptStarted :: effects (authenticate_gmail env tt) ++
              [ELog ERROR CouldNotAuthenticate] ∧
  executed (effects r) = [] ∧
  modified (effects r) = [].
Proof. apply (main_stops_without_service (Mock.env Mock.blank) 5 tt). reflexivity. Defined.

(** A valid stored credential and a mailbox whose first page request
    fails: the listing returns the empty list. *)
Lemma main_stops_when_nothing_listed_witness :
  let env := Mock.env Mock.stored_valid in
  let r := main env 5 tt in
  existsb is_raised (effects (fetch_inbox_emails env 5 tt tt)) = true ∧
  outcome r = Val tt ∧
  effects r = ELog INFO ScriptStarted :: effects (authenticate_gmail env tt) ++
              effects (fetch_inbox_emails env 5 tt tt) ++
              [ELog INFO NoEmailsFoundOrError] ∧
  modify_calls (effects r) = [].
Proof.
  split; [reflexivity|].
  apply (main_stops_when_nothing_listed (Mock.env Mock.stored_valid) 5 tt tt tt
           (effects (authenticate_gmail (Mock.env Mock.stored_valid) tt)));
    reflexivity.
Defined.

(** A valid stored credential, two pages of one message, the mutation of
    the second message fails. *)
Lemma main_archives_what_was_listed_witness :
  let env := Mock.env (Mock.full_run ["msg2"]) in
  let r := main env 5 tt in
  let archiving := archive_emails env tt ["msg1"; "msg2"] tt in
  outcome r = Val tt ∧
  final_world r = final_world archiving ∧
  effects r = ELog INFO ScriptStarted :: effects (authenticate_gmail env tt) ++
              effects (fetch_inbox_emails env 5 tt tt) ++ effects archiving ++
              [ELog INFO ScriptFinished] ∧
  modify_calls (effects r) =
    (λ id, CMessagesModify tt "me" id {[ "removeLabelIds" := ["INBOX"] ]})
      <$> ["msg1"; "msg2"].
Proof.
  apply (main_archives_what_was_listed (Mock.env (Mock.full_run ["msg2"])) 5 tt tt tt
           (effects (authenticate_gmail (Mock.env (Mock.full_run ["msg2"])) tt))
           ["msg1"; "msg2"] tt
           (effects (fetch_inbox_emails (Mock.env (Mock.full_run ["msg2"])) 5 tt tt)));
    [reflexivity|reflexivity|done].
Defined.
